(** * Sendspin GUI: the controller of [app.py] and the stream panel

    A shallow embedding of [SendspinGUIApp] (src/sendspin_gui/app.py) and of
    [StreamPanel._stream_file] (src/sendspin_gui/components/stream_panel.py).

    The controller holds a reference to the server, a list of unsubscribe
    callbacks and a handful of widgets; the server, its clients and its groups
    are mutable objects of the [aiosendspin] collaborator.  Mutable objects are
    kept in heaps indexed by references, so that a group shared by several
    clients is one object; every method becomes a function from application
    state to application state. *)

From Stdlib Require Import String Ascii List Bool Arith ZArith Lia DecimalString.
Import ListNotations.
Open Scope string_scope.
Open Scope list_scope.
Open Scope nat_scope.

Infix "+++" := String.append (at level 60, right associativity).

(** ** Python strings *)

Module PyStr.

(** [str.isspace] on the code points below 256: TAB..CR, FS..US, SPACE,
    NEL and NBSP.  A [string] here is read as a sequence of such code points. *)
Definition isspace (c : ascii) : bool :=
  let n := nat_of_ascii c in
  ((9 <=? n) && (n <=? 13)) || ((28 <=? n) && (n <=? 32))
  || (n =? 133) || (n =? 160).

Fixpoint lstrip (s : string) : string :=
  match s with
  | EmptyString => EmptyString
  | String c s' => if isspace c then lstrip s' else s
  end.

Fixpoint rstrip (s : string) : string :=
  match s with
  | EmptyString => EmptyString
  | String c s' =>
      match rstrip s' with
      | EmptyString => if isspace c then EmptyString else String c EmptyString
      | r => String c r
      end
  end.

(** [s.strip()] *)
Definition strip (s : string) : string := rstrip (lstrip s).

(** Truth value of a [str]: false exactly for the empty string. *)
Definition truthy (s : string) : bool := negb (String.eqb s "").

(** [a or b] on strings. *)
Definition or_else (a b : string) : string := if truthy a then a else b.

(** [s[:-3]] *)
Definition drop_last3 (s : string) : string :=
  substring 0 (String.length s - 3) s.

(** [f"{n}"] for an [int] and for a [len(...)]. *)
Definition str_of_int (z : Z) : string := NilZero.string_of_int (Z.to_int z).
Definition str_of_len (n : nat) : string := NilZero.string_of_uint (Nat.to_uint n).

Definition first_char_space (s : string) : bool :=
  match s with
  | EmptyString => false
  | String c _ => isspace c
  end.

Fixpoint last_char_space (s : string) : bool :=
  match s with
  | EmptyString => false
  | String c EmptyString => isspace c
  | String _ s' => last_char_space s'
  end.

(** Is every character of [s] white space? *)
Fixpoint all_space (s : string) : bool :=
  match s with
  | EmptyString => true
  | String c s' => isspace c && all_space s'
  end.

End PyStr.

(** ** The domain objects of the server collaborator *)

Definition cref := nat.
Definition gref := nat.

(** The three bound methods the controller registers as listeners. *)
Inductive Handler := OnServerEvent | OnClientEvent | OnGroupEvent.

Definition Handler_eqb (a b : Handler) : bool :=
  match a, b with
  | OnServerEvent, OnServerEvent => true
  | OnClientEvent, OnClientEvent => true
  | OnGroupEvent, OnGroupEvent => true
  | _, _ => false
  end.

(** One attached listener: the registration (numbered when it is made) and
    the callback. *)
Record Listener := mkListener { l_token : nat; l_handler : Handler }.

Record Role := mkRole { value : string }.

Record Exception := mkException { message : string }.

Record SendspinClient := mkClient {
  client_id : string;
  name : string;
  roles : list Role;
  group : option gref;
  client_listeners : list Listener
}.

Record SendspinGroup := mkGroup {
  group_id : string;
  group_name : string;
  state : string;
  volume : Z;
  muted : bool;
  clients : list cref;
  group_listeners : list Listener
}.

Record SendspinServer := mkServer {
  server_id : string;
  server_name : string;
  server_clients : list cref;
  server_listeners : list Listener
}.

(** The entity a listener was attached to, and the callable returned by
    [add_event_listener]: calling it detaches that one registration. *)
Inductive Entity := EServer | EClient (c : cref) | EGroup (g : gref).

Record Unsub := mkUnsub { u_entity : Entity; u_token : nat }.

(** Heaps are total: a reference that was never allocated reads some object
    nobody points to. *)
Definition upd {A : Type} (h : nat -> A) (k : nat) (v : A) : nat -> A :=
  fun k' => if Nat.eqb k' k then v else h k'.

Record Domain := mkDomain {
  cheap : cref -> SendspinClient;
  gheap : gref -> SendspinGroup;
  next_gref : gref;
  next_token : nat;
  unsub_calls : list Unsub
}.

(** ** What the widgets are given *)

Record ClientData := mkClientData {
  cd_id : string;
  cd_name : string;
  cd_roles : list string;
  cd_group_id : option string
}.

Record GroupData := mkGroupData {
  gd_id : string;
  gd_name : string;
  gd_state : string;
  gd_volume : Z;
  gd_muted : bool;
  gd_clients : list string
}.

(** ** The application object *)

Record App := mkApp {
  _server : option SendspinServer;
  _event_unsubscribers : list Unsub;
  dom : Domain;
  clients_panel : list ClientData;
  groups_panel : list GroupData;
  event_log : list (string * string);
  status_label : string;
  server_state : bool
}.

(** What the surroundings decide: the clock read by [_log_event], the
    identifier and the initial fields the collaborator gives a new group, and
    the file system seen by [Path.exists]. *)
Record Env := mkEnv {
  strftime_now : nat -> string;
  new_group_id : gref -> string;
  new_group_state : string;
  new_group_volume : Z;
  new_group_muted : bool;
  path_exists : string -> bool
}.

(** ** Field updates *)

Definition set_server (v : option SendspinServer) (a : App) : App :=
  mkApp v (_event_unsubscribers a) (dom a) (clients_panel a) (groups_panel a)
        (event_log a) (status_label a) (server_state a).

Definition set_event_unsubscribers (v : list Unsub) (a : App) : App :=
  mkApp (_server a) v (dom a) (clients_panel a) (groups_panel a)
        (event_log a) (status_label a) (server_state a).

Definition set_dom (v : Domain) (a : App) : App :=
  mkApp (_server a) (_event_unsubscribers a) v (clients_panel a) (groups_panel a)
        (event_log a) (status_label a) (server_state a).

Definition set_clients_panel (v : list ClientData) (a : App) : App :=
  mkApp (_server a) (_event_unsubscribers a) (dom a) v (groups_panel a)
        (event_log a) (status_label a) (server_state a).

Definition set_groups_panel (v : list GroupData) (a : App) : App :=
  mkApp (_server a) (_event_unsubscribers a) (dom a) (clients_panel a) v
        (event_log a) (status_label a) (server_state a).

Definition set_event_log (v : list (string * string)) (a : App) : App :=
  mkApp (_server a) (_event_unsubscribers a) (dom a) (clients_panel a)
        (groups_panel a) v (status_label a) (server_state a).

Definition set_status_label (v : string) (a : App) : App :=
  mkApp (_server a) (_event_unsubscribers a) (dom a) (clients_panel a)
        (groups_panel a) (event_log a) v (server_state a).

Definition set_cheap (v : cref -> SendspinClient) (d : Domain) : Domain :=
  mkDomain v (gheap d) (next_gref d) (next_token d) (unsub_calls d).

Definition set_gheap (v : gref -> SendspinGroup) (d : Domain) : Domain :=
  mkDomain (cheap d) v (next_gref d) (next_token d) (unsub_calls d).

Definition set_next_gref (v : gref) (d : Domain) : Domain :=
  mkDomain (cheap d) (gheap d) v (next_token d) (unsub_calls d).

Definition set_next_token (v : nat) (d : Domain) : Domain :=
  mkDomain (cheap d) (gheap d) (next_gref d) v (unsub_calls d).

Definition set_unsub_calls (v : list Unsub) (d : Domain) : Domain :=
  mkDomain (cheap d) (gheap d) (next_gref d) (next_token d) v.

Definition set_group (v : option gref) (o : SendspinClient) : SendspinClient :=
  mkClient (client_id o) (name o) (roles o) v (client_listeners o).

Definition set_client_listeners (v : list Listener) (o : SendspinClient)
  : SendspinClient :=
  mkClient (client_id o) (name o) (roles o) (group o) v.

Definition set_clients (v : list cref) (o : SendspinGroup) : SendspinGroup :=
  mkGroup (group_id o) (group_name o) (state o) (volume o) (muted o) v
          (group_listeners o).

Definition set_group_listeners (v : list Listener) (o : SendspinGroup)
  : SendspinGroup :=
  mkGroup (group_id o) (group_name o) (state o) (volume o) (muted o)
          (clients o) v.

Definition set_server_listeners (v : list Listener) (o : SendspinServer)
  : SendspinServer :=
  mkServer (server_id o) (server_name o) (server_clients o) v.

Arguments set_server _ _ /.
Arguments set_event_unsubscribers _ _ /.
Arguments set_dom _ _ /.
Arguments set_clients_panel _ _ /.
Arguments set_groups_panel _ _ /.
Arguments set_event_log _ _ /.
Arguments set_status_label _ _ /.
Arguments set_cheap _ _ /.
Arguments set_gheap _ _ /.
Arguments set_next_gref _ _ /.
Arguments set_next_token _ _ /.
Arguments set_unsub_calls _ _ /.
Arguments set_group _ _ /.
Arguments set_client_listeners _ _ /.
Arguments set_clients _ _ /.
Arguments set_group_listeners _ _ /.
Arguments set_server_listeners _ _ /.

(** ** The collaborator's interface *)

Module Collaborator.

(** Modelled from the spec: [add_event_listener] of a client, a group and the
    server (the [aiosendspin] package is not part of these sources).  Section 6
    gives "event subscription on server/client/group", section 4.3 "the
    registry does not itself deduplicate": each call attaches one more
    listener and returns the callable that detaches it. *)
Definition client_add_event_listener (c : cref) (h : Handler) (d : Domain)
  : Domain * Unsub :=
  let t := next_token d in
  let o := cheap d c in
  (set_next_token (S t)
     (set_cheap (upd (cheap d) c
        (set_client_listeners (client_listeners o ++ [mkListener t h]) o)) d),
   mkUnsub (EClient c) t).

Definition group_add_event_listener (g : gref) (h : Handler) (d : Domain)
  : Domain * Unsub :=
  let t := next_token d in
  let o := gheap d g in
  (set_next_token (S t)
     (set_gheap (upd (gheap d) g
        (set_group_listeners (group_listeners o ++ [mkListener t h]) o)) d),
   mkUnsub (EGroup g) t).

Definition server_add_event_listener (h : Handler) (a : App) : App * Unsub :=
  let t := next_token (dom a) in
  (set_dom (set_next_token (S t) (dom a))
     (set_server
        (option_map (fun s =>
           set_server_listeners (server_listeners s ++ [mkListener t h]) s)
           (_server a)) a),
   mkUnsub EServer t).

Definition detach (t : nat) (ls : list Listener) : list Listener :=
  filter (fun l => negb (l_token l =? t)) ls.

(** Modelled from the spec: calling an unsubscribe token (section 3: "safe to
    invoke more than once with effect only on the first call").  The call is
    recorded in [unsub_calls]. *)
Definition call_unsub (u : Unsub) (a : App) : App :=
  let a1 :=
    match u_entity u with
    | EServer =>
        set_server
          (option_map (fun s =>
             set_server_listeners (detach (u_token u) (server_listeners s)) s)
             (_server a)) a
    | EClient c =>
        let o := cheap (dom a) c in
        set_dom (set_cheap (upd (cheap (dom a)) c
          (set_client_listeners (detach (u_token u) (client_listeners o)) o))
          (dom a)) a
    | EGroup g =>
        let o := gheap (dom a) g in
        set_dom (set_gheap (upd (gheap (dom a)) g
          (set_group_listeners (detach (u_token u) (group_listeners o)) o))
          (dom a)) a
    end in
  set_dom (set_unsub_calls (unsub_calls (dom a1) ++ [u]) (dom a1)) a1.

(** Modelled from the spec: [server.get_client(client_id)], "enumerate/lookup
    clients by id" of section 6. *)
Definition get_client (d : Domain) (s : SendspinServer) (cid : string)
  : option cref :=
  find (fun c => String.eqb (client_id (cheap d c)) cid) (server_clients s).

Definition remove_cref (c : cref) (l : list cref) : list cref :=
  filter (fun c' => negb (c' =? c)) l.

(** Modelled from the spec: [client.ungroup()], the "client.leaveGroup()" of
    section 6 and the transition Assigned(group) -> Unassigned of section 4.4:
    the client leaves the member list of its group and its back-reference is
    cleared. *)
Definition ungroup (c : cref) (d : Domain) : Domain :=
  match group (cheap d c) with
  | None => d
  | Some g0 =>
      let d1 :=
        set_gheap (upd (gheap d) g0
          (set_clients (remove_cref c (clients (gheap d g0))) (gheap d g0))) d in
      set_cheap (upd (cheap d1) c (set_group None (cheap d1 c))) d1
  end.

(** Modelled from the spec: [group.add_client(client)], the
    "group.addClient(client)" of section 6 and the transition
    Unassigned -> Assigned(group): the client leaves the group it was in, is
    appended to the member list and its back-reference is set. *)
Definition add_client (g : gref) (c : cref) (d : Domain) : Domain :=
  let d1 := ungroup c d in
  let d2 :=
    set_gheap (upd (gheap d1) g
      (set_clients (clients (gheap d1 g) ++ [c]) (gheap d1 g))) d1 in
  set_cheap (upd (cheap d2) c (set_group (Some g) (cheap d2 c))) d2.

(** Modelled from the spec: [SendspinGroup(group_name=...)]: a new object with
    no member and no listener; its identifier and remaining fields are the
    collaborator's choice, read from the environment. *)
Definition new_group (env : Env) (group_name : string) (d : Domain)
  : Domain * gref :=
  let g := next_gref d in
  (set_next_gref (S g)
     (set_gheap (upd (gheap d) g
        (mkGroup (new_group_id env g) group_name (new_group_state env)
                 (new_group_volume env) (new_group_muted env) [] [])) d),
   g).

End Collaborator.

(** ** The widgets and the bridge *)

Module Widgets.

(** Modelled from the spec: [ClientsPanel] and [GroupsPanel]
    (components/clients_panel.py and groups_panel.py are not part of these
    sources).  A panel shows the snapshot it was last given; [clear] leaves it
    empty ("clear to empty", section 7). *)
Definition clients_panel_clear (a : App) : App := set_clients_panel [] a.
Definition clients_panel_update_clients (v : list ClientData) (a : App) : App :=
  set_clients_panel v a.
Definition groups_panel_clear (a : App) : App := set_groups_panel [] a.
Definition groups_panel_update_groups (v : list GroupData) (a : App) : App :=
  set_groups_panel v a.

(** Modelled from the spec: [ServerPanel.set_server_state], the "boolean
    running-state callback" of section 6. *)
Definition set_server_state (v : bool) (a : App) : App :=
  mkApp (_server a) (_event_unsubscribers a) (dom a) (clients_panel a)
        (groups_panel a) (event_log a) (status_label a) v.

(** Modelled from the spec: [EventLog.add_event], the "leveled event-log
    append operation" of section 6. *)
Definition event_log_add_event (text level : string) (a : App) : App :=
  set_event_log (event_log a ++ [(text, level)]) a.

Arguments clients_panel_clear _ /.
Arguments clients_panel_update_clients _ _ /.
Arguments groups_panel_clear _ /.
Arguments groups_panel_update_groups _ _ /.
Arguments set_server_state _ _ /.
Arguments event_log_add_event _ _ _ /.

End Widgets.

(** A coroutine of the controller runs against the application state and
    either returns [None] or raises. *)
Definition Coroutine := App -> App * option Exception.

(** Modelled from the spec: [AsyncBridge.run_coroutine] (utils/async_bridge.py
    is not part of these sources), sequentially: the work runs to its end and
    the completion callback is then called once with [(result, error)];
    "WorkFailed: submitted work raised, captured and delivered as the error
    half of the completion callback" (section 7).  The coroutines of this
    program all return [None], so the result half is [tt]. *)
Definition run_coroutine (coro : Coroutine)
    (on_complete : unit -> option Exception -> App -> App) (a : App) : App :=
  let (a1, error) := coro a in on_complete tt error a1.

(** ** [class SendspinGUIApp] *)

Module SendspinGUIApp.
Import Collaborator Widgets.

(** Events of the server and of a group, as the handlers tell them apart
    with [isinstance]; any other event is known by its class name. *)
Inductive SendspinEvent :=
| ClientAddedEvent (client_id : string)
| ClientRemovedEvent (client_id : string)
| OtherServerEvent (type_name : string).

Inductive GroupEvent :=
| GroupStateChangedEvent (state : string)
| GroupMemberAddedEvent (client_id : string)
| GroupMemberRemovedEvent (client_id : string)
| GroupDeletedEvent
| OtherGroupEvent (type_name : string).

Section Methods.

Variable env : Env.

(** [_log_event]: the entry is the message behind a bracketed time of day. *)
Definition _log_event (message : string) (level : string) (a : App) : App :=
  let timestamp :=
    PyStr.drop_last3 (strftime_now env (List.length (event_log a))) in
  event_log_add_event ("[" +++ timestamp +++ "] " +++ message) level a.

Definition _update_status (message : string) (a : App) : App :=
  set_status_label message a.

(** The dictionary appended to [clients_data] for one client. *)
Definition client_data (d : Domain) (client : cref) : ClientData :=
  let o := cheap d client in
  mkClientData (client_id o) (name o) (map value (roles o))
    (match group o with
     | Some g => Some (group_id (gheap d g))
     | None => None
     end).

(** The body of [for client in self._server.clients] in [_refresh_clients]. *)
Fixpoint refresh_clients_loop (cs : list cref) (a : App)
    (clients_data : list ClientData) : App * list ClientData :=
  match cs with
  | [] => (a, clients_data)
  | client :: rest =>
      let (d1, unsub) :=
        client_add_event_listener client OnClientEvent (dom a) in
      let a1 :=
        set_event_unsubscribers (_event_unsubscribers a ++ [unsub])
          (set_dom d1 a) in
      refresh_clients_loop rest a1
        (clients_data ++ [client_data (dom a1) client])
  end.

Definition _refresh_clients (a : App) : App :=
  match _server a with
  | None => clients_panel_clear a
  | Some srv =>
      let (a1, clients_data) :=
        refresh_clients_loop (server_clients srv) a [] in
      clients_panel_update_clients clients_data a1
  end.

(** [groups: dict[str, SendspinGroup]], in insertion order. *)
Definition dict_contains (k : string) (groups : list (string * gref)) : bool :=
  existsb (fun p => String.eqb (fst p) k) groups.

Fixpoint collect_groups (d : Domain) (cs : list cref)
    (groups : list (string * gref)) : list (string * gref) :=
  match cs with
  | [] => groups
  | client :: rest =>
      match group (cheap d client) with
      | Some g =>
          if negb (dict_contains (group_id (gheap d g)) groups)
          then collect_groups d rest (groups ++ [(group_id (gheap d g), g)])
          else collect_groups d rest groups
      | None => collect_groups d rest groups
      end
  end.

(** The dictionary appended to [groups_data] for one group; the [state]
    field of a group already holds [str(group.state)]. *)
Definition group_data (d : Domain) (g : gref) : GroupData :=
  let o := gheap d g in
  mkGroupData (group_id o) (group_name o) (state o) (volume o) (muted o)
    (map (fun c => client_id (cheap d c)) (clients o)).

Definition _refresh_groups (a : App) : App :=
  match _server a with
  | None => groups_panel_clear a
  | Some srv =>
      let groups := collect_groups (dom a) (server_clients srv) [] in
      groups_panel_update_groups
        (map (fun p => group_data (dom a) (snd p)) groups) a
  end.

(** [_start_server]; [listen] is what [start_server] of the collaborator
    raises, if anything. *)
Definition _start (server_id server_name : string) (listen : option Exception)
  : Coroutine :=
  fun a =>
    let a1 := set_server (Some (mkServer server_id server_name [] [])) a in
    let (a2, unsub) := server_add_event_listener OnServerEvent a1 in
    let a3 := set_event_unsubscribers (_event_unsubscribers a2 ++ [unsub]) a2 in
    (a3, listen).

Definition start_on_complete (server_id server_name : string) (port : Z)
    (result : unit) (error : option Exception) (a : App) : App :=
  match error with
  | Some e =>
      let a1 := _log_event ("Failed to start server: " +++ message e) "error" a in
      set_server_state false a1
  | None =>
      let a1 :=
        _log_event ("Server started on port " +++ PyStr.str_of_int port)
          "success" a in
      let a2 :=
        _update_status
          ("Server running: " +++ server_name +++ " (" +++ server_id
           +++ ") on port " +++ PyStr.str_of_int port) a1 in
      set_server_state true a2
  end.

Definition _start_server (server_id server_name : string) (port : Z)
    (enable_mdns : bool) (listen : option Exception) (a : App) : App :=
  let a1 := _log_event ("Starting server '" +++ server_name +++ "'...") "info" a in
  run_coroutine (_start server_id server_name listen)
    (start_on_complete server_id server_name port) a1.

(** [_stop_server]; [close] is what [server.close()] raises, if anything. *)
Definition _stop (close : option Exception) : Coroutine :=
  fun a =>
    match _server a with
    | Some _ => (a, close)
    | None => (a, None)
    end.

Definition stop_on_complete (result : unit) (error : option Exception)
    (a : App) : App :=
  let a1 := fold_left (fun acc unsub => call_unsub unsub acc)
              (_event_unsubscribers a) a in
  let a2 := set_event_unsubscribers [] a1 in
  let a3 := set_server None a2 in
  let a4 :=
    match error with
    | Some e => _log_event ("Error stopping server: " +++ message e) "error" a3
    | None => _log_event "Server stopped" "info" a3
    end in
  let a5 := _update_status "Server stopped" a4 in
  let a6 := set_server_state false a5 in
  let a7 := clients_panel_clear a6 in
  groups_panel_clear a7.

Definition _stop_server (close : option Exception) (a : App) : App :=
  match _server a with
  | None => a
  | Some _ =>
      let a1 := _log_event "Stopping server..." "info" a in
      run_coroutine (_stop close) stop_on_complete a1
  end.

Definition _handle_server_event (event : SendspinEvent) (a : App) : App :=
  match event with
  | ClientAddedEvent cid =>
      _refresh_clients (_log_event ("Client connected: " +++ cid) "success" a)
  | ClientRemovedEvent cid =>
      _refresh_clients (_log_event ("Client disconnected: " +++ cid) "warning" a)
  | OtherServerEvent type_name =>
      _log_event ("Server event: " +++ type_name) "info" a
  end.

(** [handle] inside [_on_group_event]. *)
Definition handle_group_event (g : gref) (event : GroupEvent) (a : App) : App :=
  let gid := group_id (gheap (dom a) g) in
  let a1 :=
    match event with
    | GroupStateChangedEvent s =>
        _log_event ("Group " +++ gid +++ ": state -> " +++ s) "info" a
    | GroupMemberAddedEvent cid =>
        _log_event ("Group " +++ gid +++ ": added " +++ cid) "info" a
    | GroupMemberRemovedEvent cid =>
        _log_event ("Group " +++ gid +++ ": removed " +++ cid) "info" a
    | GroupDeletedEvent =>
        _log_event ("Group " +++ gid +++ ": deleted") "warning" a
    | OtherGroupEvent type_name =>
        _log_event ("Group " +++ gid +++ ": " +++ type_name) "info" a
    end in
  _refresh_groups a1.

(** [_create_group].  Inside [_create], [self._server] is read again at every
    turn of the loop; reading an attribute of [None] raises. *)
Fixpoint create_loop (group : gref) (client_ids : list string) (a : App)
  : App * option Exception :=
  match client_ids with
  | [] => (a, None)
  | cid :: rest =>
      match _server a with
      | None =>
          (a, Some (mkException
                      "'NoneType' object has no attribute 'get_client'"))
      | Some srv =>
          match get_client (dom a) srv cid with
          | Some client =>
              create_loop group rest (set_dom (add_client group client (dom a)) a)
          | None => create_loop group rest a
          end
      end
  end.

Definition _create (client_ids : list string) (group_name : string)
  : Coroutine :=
  fun a =>
    let (d1, group) := new_group env group_name (dom a) in
    let (d2, unsub) := group_add_event_listener group OnGroupEvent d1 in
    let a1 :=
      set_event_unsubscribers (_event_unsubscribers a ++ [unsub])
        (set_dom d2 a) in
    create_loop group client_ids a1.

Definition create_on_complete (client_ids : list string) (group_name : string)
    (result : unit) (error : option Exception) (a : App) : App :=
  match error with
  | Some e => _log_event ("Failed to create group: " +++ message e) "error" a
  | None =>
      let a1 :=
        _log_event
          ("Created group '" +++ group_name +++ "' with "
           +++ PyStr.str_of_len (List.length client_ids) +++ " clients")
          "success" a in
      _refresh_groups (_refresh_clients a1)
  end.

Definition _create_group (client_ids : list string) (group_name : string)
    (a : App) : App :=
  match _server a, client_ids with
  | None, _ => a
  | Some _, [] => a
  | Some _, _ :: _ =>
      run_coroutine (_create client_ids group_name)
        (create_on_complete client_ids group_name) a
  end.

(** [_remove_client_from_group]; the [group_id] argument is not looked at. *)
Definition _remove (client : cref) : Coroutine :=
  fun a => (set_dom (ungroup client (dom a)) a, None).

Definition remove_on_complete (client_id : string) (r : unit)
    (e : option Exception) (a : App) : App :=
  match e with
  | Some err => _log_event ("Error removing client: " +++ message err) "error" a
  | None =>
      let a1 := _log_event ("Removed " +++ client_id +++ " from group") "info" a in
      _refresh_groups (_refresh_clients a1)
  end.

Definition _remove_client_from_group (group_id client_id : string) (a : App)
  : App :=
  match _server a with
  | None => a
  | Some srv =>
      match get_client (dom a) srv client_id with
      | Some client =>
          match group (cheap (dom a) client) with
          | Some _ => run_coroutine (_remove client) (remove_on_complete client_id) a
          | None => a
          end
      | None => a
      end
  end.

End Methods.

End SendspinGUIApp.

(** ** [class StreamPanel] *)

Module StreamPanel.

(** The two entry widgets of the file tab, by the text they hold. *)
Record Entries := mkEntries {
  file_entry : string;
  file_group_entry : string
}.

(** A call of [self._on_stream_file(file_path, group_id)]. *)
Record StreamFileCall := mkCall { call_file_path : string; call_group_id : string }.

(** [_stream_file]: [None] when the method returns without calling back. *)
Definition _stream_file (env : Env) (w : Entries) : option StreamFileCall :=
  let file_path := PyStr.strip (file_entry w) in
  let group_id := PyStr.or_else (PyStr.strip (file_group_entry w)) "all" in
  if negb (PyStr.truthy file_path) then None
  else if negb (path_exists env file_path) then None
  else Some (mkCall file_path group_id).

End StreamPanel.

(** ** Vocabulary of the statements *)

Module Obs.
Import Collaborator SendspinGUIApp.

(** Number of listeners on a list that call the handler [h]. *)
Definition count_handler (h : Handler) (ls : list Listener) : nat :=
  List.length (filter (fun l => Handler_eqb (l_handler l) h) ls).

(** Live subscriptions of the controller's client handler on client [c]. *)
Definition client_subscriptions (a : App) (c : cref) : nat :=
  count_handler OnClientEvent (client_listeners (cheap (dom a) c)).

(** The clients a refresh scans: those of the server, none without one. *)
Definition scanned_clients (a : App) : list cref :=
  match _server a with
  | Some srv => server_clients srv
  | None => []
  end.

(** The groups met while scanning, one per client that has one, in scan
    order. *)
Definition referenced_groups (d : Domain) (cs : list cref) : list gref :=
  flat_map (fun c => match group (cheap d c) with
                     | Some g => [g]
                     | None => []
                     end) cs.

Definition referenced_ids (d : Domain) (cs : list cref) : list string :=
  map (fun g => group_id (gheap d g)) (referenced_groups d cs).

(** Each identifier once, at the place of its first occurrence. *)
Definition first_occurrences (l : list string) : list string :=
  rev (nodup string_dec (rev l)).

(** The first group met under the identifier [gid]. *)
Definition first_ref (d : Domain) (gid : string) (cs : list cref)
  : option gref :=
  find (fun g => String.eqb (group_id (gheap d g)) gid) (referenced_groups d cs).

(** Is the registration behind the token [u] still attached? *)
Definition has_token (t : nat) (ls : list Listener) : bool :=
  existsb (fun l => l_token l =? t) ls.

Definition live (u : Unsub) (a : App) : bool :=
  match u_entity u with
  | EServer =>
      match _server a with
      | Some s => has_token (u_token u) (server_listeners s)
      | None => false
      end
  | EClient c => has_token (u_token u) (client_listeners (cheap (dom a) c))
  | EGroup g => has_token (u_token u) (group_listeners (gheap (dom a) g))
  end.

(** The snapshot of the group shown under [gid], if any. *)
Definition shown_group (gid : string) (a : App) : option GroupData :=
  find (fun e => String.eqb (gd_id e) gid) (groups_panel a).

Definition member_ids (gid : string) (a : App) : option (list string) :=
  option_map gd_clients (shown_group gid a).

(** Identifiers of the connected clients, in the server's order. *)
Definition connected_ids (d : Domain) (srv : SendspinServer) : list string :=
  map (fun c => client_id (cheap d c)) (server_clients srv).

(** No group met while scanning already carries the identifier the next new
    group will get. *)
Definition new_id_unused (env : Env) (d : Domain) (srv : SendspinServer)
  : Prop :=
  Forall (fun gid => gid <> new_group_id env (next_gref d))
         (referenced_ids d (server_clients srv)).

(** Every group met while scanning was allocated. *)
Definition groups_allocated (d : Domain) (srv : SendspinServer) : Prop :=
  Forall (fun g => g < next_gref d) (referenced_groups d (server_clients srv)).

(** Two domains that differ at most in who listens. *)
Definition same_graph (d d' : Domain) : Prop :=
  gheap d' = gheap d
  /\ next_gref d' = next_gref d
  /\ forall c, client_id (cheap d' c) = client_id (cheap d c)
               /\ name (cheap d' c) = name (cheap d c)
               /\ roles (cheap d' c) = roles (cheap d c)
               /\ group (cheap d' c) = group (cheap d c).

(** The loop [for unsub in self._event_unsubscribers: unsub()]. *)
Definition unsubscribe_each (us : list Unsub) (a : App) : App :=
  fold_left (fun acc unsub => call_unsub unsub acc) us a.

(** The clients the loop of [_create] finds for the identifiers [ids]; an
    identifier no connected client carries yields none. *)
Definition resolved (d : Domain) (srv : SendspinServer) (ids : list string)
  : list cref :=
  flat_map (fun cid => match get_client d srv cid with
                       | Some c => [c]
                       | None => []
                       end) ids.

(** [add_client] for each client of a list, in order. *)
Definition add_each (g : gref) (cs : list cref) (d : Domain) : Domain :=
  fold_left (fun acc c => add_client g c acc) cs d.

(** The group [g] is shown under [gid], [members] is its member list, each
    member points back to it, and no other connected client points to a group
    carrying [gid]. *)
Record Grouped (srv : SendspinServer) (g : gref) (gid : string)
    (members : list cref) (d : Domain) : Prop := mkGrouped {
  grouped_nodup : NoDup members;
  grouped_connected : incl members (server_clients srv);
  grouped_clients : clients (gheap d g) = members;
  grouped_id : group_id (gheap d g) = gid;
  grouped_back : forall c, In c members -> group (cheap d c) = Some g;
  grouped_others :
    forall c g', In c (server_clients srv) -> ~ In c members ->
                 group (cheap d c) = Some g' -> group_id (gheap d g') <> gid
}.

End Obs.

(** ** A small session to run the methods on *)

Module Session.

Definition env0 : Env :=
  mkEnv (fun _ => "12:00:00.000000")
        (fun g => "group-" +++ PyStr.str_of_len g)
        "idle" 100%Z false
        (fun p => String.eqb p "/music/a.wav").

Definition player : Role := mkRole "player".

Definition cheap0 : cref -> SendspinClient :=
  fun c =>
    match c with
    | 0 => mkClient "c1" "Kitchen" [player] None []
    | 1 => mkClient "c2" "Hall" [player] None []
    | _ => mkClient "" "" [] None []
    end.

Definition gheap0 : gref -> SendspinGroup :=
  fun _ => mkGroup "" "" "" 0%Z false [] [].

Definition dom0 : Domain := mkDomain cheap0 gheap0 0 0 [].

Definition srv0 : SendspinServer := mkServer "srv" "Test" [0; 1] [].

(** A running server with the clients "c1" and "c2" connected. *)
Definition running : App :=
  mkApp (Some srv0) [] dom0 [] [] [] "" true.

(** The same controller before any server was started. *)
Definition idle : App :=
  mkApp None [] dom0 [] [] [] "Server stopped" false.

(** Only "c1" is connected. *)
Definition running_one : App :=
  mkApp (Some (mkServer "srv" "Test" [0] [])) [] dom0 [] [] [] "" true.

End Session.

(** ** The remaining entry points of the controller *)

Module Actions.
Import Collaborator Widgets SendspinGUIApp Obs.

(** Modelled from the spec: [group.set_volume(volume)], the
    "group.setVolume(int)" of section 6: the volume the group reports becomes
    [volume]. *)
Definition set_volume (g : gref) (v : Z) (d : Domain) : Domain :=
  let o := gheap d g in
  set_gheap (upd (gheap d) g
    (mkGroup (group_id o) (group_name o) (state o) v (muted o) (clients o)
             (group_listeners o))) d.

(** A coroutine that awaits one call of the collaborator
    ([client.disconnect], [group.stop]); [raised] is what the call raises,
    if anything.  What the call does to the domain reaches the controller
    as events. *)
Definition awaiting (raised : option Exception) : Coroutine :=
  fun a => (a, raised).

(** [lambda r, e: None] *)
Definition ignore_completion (r : unit) (e : option Exception) (a : App) : App :=
  a.


Section Methods.

Variable env : Env.

(** The callback [_on_client_event] hands to the main loop; the event is
    known by its class name. *)
Definition handle_client_event (client : cref) (type_name : string) (a : App)
  : App :=
  _log_event env
    ("Client " +++ client_id (cheap (dom a) client) +++ ": " +++ type_name)
    "info" a.

Definition _disconnect_client (client_id : string) (raised : option Exception)
    (a : App) : App :=
  match _server a with
  | None => a
  | Some srv =>
      match get_client (dom a) srv client_id with
      | None => a
      | Some client => run_coroutine (awaiting raised) ignore_completion a
      end
  end.

Definition _play_group (group_id : string) (a : App) : App :=
  _log_event env ("Play requested for group " +++ group_id) "info" a.

(** The loop of [_stop_group]: the first client whose group carries the id
    decides. *)
Fixpoint stop_group_loop (cs : list cref) (gid : string)
    (raised : option Exception) (a : App) : App :=
  match cs with
  | [] => a
  | client :: rest =>
      match group (cheap (dom a) client) with
      | Some g =>
          if String.eqb (group_id (gheap (dom a) g)) gid
          then
            let a1 := run_coroutine (awaiting raised) ignore_completion a in
            _log_event env ("Stop requested for group " +++ gid) "info" a1
          else stop_group_loop rest gid raised a
      | None => stop_group_loop rest gid raised a
      end
  end.

Definition _stop_group (group_id : string) (raised : option Exception)
    (a : App) : App :=
  match _server a with
  | None => a
  | Some srv => stop_group_loop (server_clients srv) group_id raised a
  end.

(** The loop of [_set_group_volume]. *)
Fixpoint set_volume_loop (cs : list cref) (gid : string) (volume : Z)
    (a : App) : App :=
  match cs with
  | [] => a
  | client :: rest =>
      match group (cheap (dom a) client) with
      | Some g =>
          if String.eqb (group_id (gheap (dom a) g)) gid
          then
            let a1 := set_dom (set_volume g volume (dom a)) a in
            _log_event env
              ("Volume set to " +++ PyStr.str_of_int volume +++ " for group "
               +++ gid) "info" a1
          else set_volume_loop rest gid volume a
      | None => set_volume_loop rest gid volume a
      end
  end.

Definition _set_group_volume (group_id : string) (volume : Z) (a : App) : App :=
  match _server a with
  | None => a
  | Some srv => set_volume_loop (server_clients srv) group_id volume a
  end.

(** [SendspinGUIApp._stream_file], the callback given to the stream panel. *)
Definition _stream_file (file_path group_id : string) (a : App) : App :=
  _log_event env ("Streaming " +++ file_path +++ " to group " +++ group_id)
    "info" a.

(** Pressing "Stream File": [StreamPanel._stream_file] with the callback
    [_build_ui] wires in. *)
Definition press_stream_file (w : StreamPanel.Entries) (a : App) : App :=
  match StreamPanel._stream_file env w with
  | Some call =>
      _stream_file (StreamPanel.call_file_path call)
        (StreamPanel.call_group_id call) a
  | None => a
  end.

End Methods.

End Actions.

(** ** Choosing a file *)

Module StreamPanelBrowse.

(** The file tab: its two entries and [_selected_file]. *)
Record FileTab := mkFileTab {
  entries : StreamPanel.Entries;
  _selected_file : option string
}.

(** [_browse_file]; [filename] is what [filedialog.askopenfilename] returns,
    empty when the dialog is cancelled. *)
Definition _browse_file (filename : string) (t : FileTab) : FileTab :=
  if PyStr.truthy filename
  then mkFileTab
         (StreamPanel.mkEntries filename
            (StreamPanel.file_group_entry (entries t)))
         (Some filename)
  else t.

End StreamPanelBrowse.

(** ** The controller as a machine *)

Module Machine.
Import Collaborator Widgets SendspinGUIApp Obs Actions.

(** What can happen to the controller: a press in one of the panels, or an
    event delivered to the main loop.  Outcomes of the collaborator's calls
    ride along. *)
Inductive Action :=
| DoStartServer (server_id server_name : string) (port : Z)
    (enable_mdns : bool) (listen : option Exception)
| DoStopServer (close : option Exception)
| GotServerEvent (event : SendspinEvent)
| GotClientEvent (client : cref) (type_name : string)
| GotGroupEvent (group : gref) (event : GroupEvent)
| DoCreateGroup (client_ids : list string) (group_name : string)
| DoDisconnectClient (client_id : string) (raised : option Exception)
| DoPlayGroup (group_id : string)
| DoStopGroup (group_id : string) (raised : option Exception)
| DoSetGroupVolume (group_id : string) (volume : Z)
| DoRemoveClient (group_id client_id : string)
| DoStreamFile (w : StreamPanel.Entries).

Definition perform (env : Env) (act : Action) (a : App) : App :=
  match act with
  | DoStartServer sid sname port mdns listen =>
      _start_server env sid sname port mdns listen a
  | DoStopServer close => _stop_server env close a
  | GotServerEvent ev => _handle_server_event env ev a
  | GotClientEvent c tn => handle_client_event env c tn a
  | GotGroupEvent g ev => handle_group_event env g ev a
  | DoCreateGroup ids gname => _create_group env ids gname a
  | DoDisconnectClient cid raised => _disconnect_client cid raised a
  | DoPlayGroup gid => _play_group env gid a
  | DoStopGroup gid raised => _stop_group env gid raised a
  | DoSetGroupVolume gid v => _set_group_volume env gid v a
  | DoRemoveClient gid cid => _remove_client_from_group env gid cid a
  | DoStreamFile w => press_stream_file env w a
  end.






(** Is there a callable for the registration [t] on [e] in [us]? *)
Definition Entity_eqb (e1 e2 : Entity) : bool :=
  match e1, e2 with
  | EServer, EServer => true
  | EClient c1, EClient c2 => c1 =? c2
  | EGroup g1, EGroup g2 => g1 =? g2
  | _, _ => false
  end.

Definition held (e : Entity) (t : nat) (us : list Unsub) : bool :=
  existsb (fun u => Entity_eqb (u_entity u) e && (u_token u =? t)) us.

(** A group entry with another volume. *)
Definition with_volume (v : Z) (e : GroupData) : GroupData :=
  mkGroupData (gd_id e) (gd_name e) (gd_state e) v (gd_muted e) (gd_clients e).

(** From [a] to [a'] no callable was let go of, and every listener that is
    new in [a'] has its callable in [_event_unsubscribers]. *)
Definition keeps_books (a a' : App) : Prop :=
  incl (_event_unsubscribers a) (_event_unsubscribers a')
  /\ (forall c l, In l (client_listeners (cheap (dom a') c)) ->
        In l (client_listeners (cheap (dom a) c))
        \/ In (mkUnsub (EClient c) (l_token l)) (_event_unsubscribers a'))
  /\ (forall g l, In l (group_listeners (gheap (dom a') g)) ->
        In l (group_listeners (gheap (dom a) g))
        \/ In (mkUnsub (EGroup g) (l_token l)) (_event_unsubscribers a'))
  /\ (forall srv' l, _server a' = Some srv' -> In l (server_listeners srv') ->
        (exists srv, _server a = Some srv /\ In l (server_listeners srv))
        \/ In (mkUnsub EServer (l_token l)) (_event_unsubscribers a')).

(** A turn of the main loop that leaves the server reference and the toggle
    alone, keeps the books, only appends to the log and, without a server,
    takes no callable and shows nothing new. *)
Definition tame (a a' : App) : Prop :=
  _server a' = _server a
  /\ server_state a' = server_state a
  /\ keeps_books a a'
  /\ (exists suffix, event_log a' = event_log a ++ suffix)
  /\ (_server a = None ->
        _event_unsubscribers a' = _event_unsubscribers a
        /\ (clients_panel a' = [] \/ clients_panel a' = clients_panel a)
        /\ (groups_panel a' = [] \/ groups_panel a' = groups_panel a)).

(** Is some connected client known under [cid]? *)
Definition is_connected (d : Domain) (srv : SendspinServer) (cid : string)
  : bool :=
  existsb (fun c => String.eqb (client_id (cheap d c)) cid) (server_clients srv).

End Machine.

(** * Properties *)

(** ** Trimming *)

Module PyStrFacts.
Import PyStr.

Lemma lstrip_split (s : string) :
  exists l, s = l +++ lstrip s /\ all_space l = true.
Proof.
  induction s as [|c s IH]; simpl.
  - exists EmptyString. split; reflexivity.
  - destruct (isspace c) eqn:Hc.
    + destruct IH as [l [Hs Hl]].
      exists (String c l). simpl. rewrite Hc, Hl. split; [f_equal; exact Hs | reflexivity].
    + exists EmptyString. split; reflexivity.
Qed.

Lemma rstrip_split (s : string) :
  exists r, s = rstrip s +++ r /\ all_space r = true.
Proof.
  induction s as [|c s IH]; simpl.
  - exists EmptyString. split; reflexivity.
  - destruct IH as [r [Hs Hr]].
    destruct (rstrip s) as [|c' s'] eqn:Hrs.
    + simpl in Hs. subst r. destruct (isspace c) eqn:Hc.
      * exists (String c s). simpl. rewrite Hc, Hr. split; reflexivity.
      * exists s. split; [reflexivity | exact Hr].
    + exists r. split; [simpl; f_equal; exact Hs | exact Hr].
Qed.

Lemma lstrip_no_leading_space (s : string) : first_char_space (lstrip s) = false.
Proof.
  induction s as [|c s IH]; simpl; [reflexivity|].
  destruct (isspace c) eqn:Hc; [exact IH | simpl; exact Hc].
Qed.

Lemma rstrip_no_trailing_space (s : string) : last_char_space (rstrip s) = false.
Proof.
  induction s as [|c s IH]; simpl; [reflexivity|].
  destruct (rstrip s) as [|c' s'] eqn:Hrs.
  - destruct (isspace c) eqn:Hc; simpl; [reflexivity | exact Hc].
  - exact IH.
Qed.

Lemma rstrip_keeps_first (s : string) :
  first_char_space s = false -> first_char_space (rstrip s) = false.
Proof.
  destruct s as [|c s]; simpl; [reflexivity|].
  intros Hc. destruct (rstrip s); [rewrite Hc|]; simpl; assumption.
Qed.

(** [strip] cuts white space off both ends and nothing else. *)
Lemma strip_trims (s : string) :
  (exists l r, s = l +++ strip s +++ r /\ all_space l = true /\ all_space r = true)
  /\ first_char_space (strip s) = false
  /\ last_char_space (strip s) = false.
Proof.
  unfold strip. split; [|split].
  - destruct (lstrip_split s) as [l [Hs Hl]].
    destruct (rstrip_split (lstrip s)) as [r [Hm Hr]].
    exists l, r. split; [|split]; try assumption.
    rewrite <- Hm. exact Hs.
  - apply rstrip_keeps_first, lstrip_no_leading_space.
  - apply rstrip_no_trailing_space.
Qed.

Lemma truthy_nonempty (s : string) : truthy s = true <-> s <> "".
Proof.
  unfold truthy. destruct (String.eqb_spec s ""); simpl; split; intros; congruence.
Qed.

End PyStrFacts.

(** ** The stream-file action *)

Module StreamPanelFacts.
Import StreamPanel.

(** C10.  Pressing "Stream File" calls [on_stream_file] exactly when the
    trimmed text of the file entry is not empty and names an existing path;
    otherwise the method returns without a call.  The call carries the trimmed
    path and the trimmed target group, or "all" when that is blank. *)
Theorem stream_file_calls_back_iff (env : Env) (w : Entries) :
  (_stream_file env w <> None <->
     PyStr.strip (file_entry w) <> ""
     /\ path_exists env (PyStr.strip (file_entry w)) = true)
  /\ (forall call, _stream_file env w = Some call ->
        call_file_path call = PyStr.strip (file_entry w)
        /\ call_group_id call =
             (if String.eqb (PyStr.strip (file_group_entry w)) ""
              then "all" else PyStr.strip (file_group_entry w))).
Proof.
  unfold _stream_file, PyStr.or_else, PyStr.truthy.
  destruct (String.eqb_spec (PyStr.strip (file_entry w)) "") as [He|He]; simpl.
  - split.
    + split; [intros H; now elim H | intros [H _]; now elim H].
    + intros call H; discriminate H.
  - destruct (path_exists env (PyStr.strip (file_entry w))) eqn:Hp; simpl.
    + split.
      * split; [intros _; split; [exact He | reflexivity] | intros _ H; discriminate H].
      * intros call H. injection H as <-. simpl.
        destruct (PyStr.strip (file_group_entry w) =? "")%string; split; reflexivity.
    + split.
      * split; [intros H; now elim H | intros [_ H]; discriminate H].
      * intros call H; discriminate H.
Qed.

(** A blank target group with an existing file: the call goes to "all". *)
Lemma stream_file_blank_group_example :
  _stream_file Session.env0 (mkEntries "  /music/a.wav " "   ")
  = Some (mkCall "/music/a.wav" "all").
Proof. reflexivity. Qed.

End StreamPanelFacts.

(** ** Reconciliation of the client list *)

Module RefreshClientsFacts.
Import Collaborator Widgets SendspinGUIApp Obs.

Lemma upd_same {A : Type} (h : nat -> A) (k : nat) (v : A) : upd h k v k = v.
Proof. unfold upd. now rewrite Nat.eqb_refl. Qed.

Lemma upd_other {A : Type} (h : nat -> A) (k k' : nat) (v : A) :
  k' <> k -> upd h k v k' = h k'.
Proof. unfold upd. intros H. apply Nat.eqb_neq in H. now rewrite H. Qed.

Lemma same_graph_refl (d : Domain) : same_graph d d.
Proof. repeat split. Qed.

Lemma same_graph_trans (d1 d2 d3 : Domain) :
  same_graph d1 d2 -> same_graph d2 d3 -> same_graph d1 d3.
Proof.
  intros [Hg [Hn Hc]] [Hg' [Hn' Hc']]. split; [congruence|]. split; [congruence|].
  intros c. destruct (Hc c) as [? [? [? ?]]]. destruct (Hc' c) as [? [? [? ?]]].
  repeat split; congruence.
Qed.

Lemma add_listener_same_graph (c : cref) (h : Handler) (d : Domain) :
  same_graph d (fst (client_add_event_listener c h d)).
Proof.
  unfold client_add_event_listener; simpl.
  split; [reflexivity|]. split; [reflexivity|].
  intros c'. simpl. destruct (Nat.eq_dec c' c) as [->|Hne].
  - rewrite upd_same. repeat split.
  - rewrite upd_other by assumption. repeat split.
Qed.

Lemma client_data_same_graph (d d' : Domain) (c : cref) :
  same_graph d d' -> client_data d' c = client_data d c.
Proof.
  intros [Hg [_ Hc]]. destruct (Hc c) as [H1 [H2 [H3 H4]]].
  unfold client_data. rewrite H1, H2, H3, H4, Hg. reflexivity.
Qed.

Lemma refresh_loop_frame (cs : list cref) :
  forall a acc,
    let a' := fst (refresh_clients_loop cs a acc) in
    _server a' = _server a
    /\ same_graph (dom a) (dom a')
    /\ groups_panel a' = groups_panel a
    /\ clients_panel a' = clients_panel a
    /\ event_log a' = event_log a
    /\ status_label a' = status_label a
    /\ server_state a' = server_state a.
Proof.
  induction cs as [|c cs IH]; intros a acc; simpl.
  - repeat split.
  - match goal with
    | |- context [refresh_clients_loop cs ?x ?y] =>
        specialize (IH x y); simpl in IH
    end.
    destruct IH as [H1 [H2 [H3 [H4 [H5 [H6 H7]]]]]].
    repeat (split; [assumption|]).
    split; [|repeat (split; [assumption|]); assumption].
    eapply same_graph_trans; [|exact H2].
    apply (add_listener_same_graph c OnClientEvent (dom a)).
Qed.

Lemma refresh_loop_data (cs : list cref) :
  forall a acc,
    snd (refresh_clients_loop cs a acc) = acc ++ map (client_data (dom a)) cs.
Proof.
  induction cs as [|c cs IH]; intros a acc; simpl.
  - now rewrite app_nil_r.
  - rewrite IH. simpl. rewrite <- app_assoc. simpl. f_equal.
    pose proof (add_listener_same_graph c OnClientEvent (dom a)) as Hs.
    simpl in Hs. f_equal.
    + apply client_data_same_graph. exact Hs.
    + apply map_ext. intros c'. apply client_data_same_graph. exact Hs.
Qed.

Lemma refresh_loop_listeners (cs : list cref) (c : cref) :
  forall a acc,
    client_subscriptions (fst (refresh_clients_loop cs a acc)) c
    = client_subscriptions a c + count_occ Nat.eq_dec cs c.
Proof.
  induction cs as [|c0 cs IH]; intros a acc; simpl.
  - lia.
  - rewrite IH. unfold client_subscriptions; simpl.
    destruct (Nat.eq_dec c0 c) as [->|Hne].
    + rewrite upd_same. simpl. unfold count_handler.
      rewrite filter_app, length_app. simpl. lia.
    + rewrite upd_other by congruence. lia.
Qed.

Lemma refresh_clients_frame (a : App) :
  _server (_refresh_clients a) = _server a
  /\ same_graph (dom a) (dom (_refresh_clients a))
  /\ groups_panel (_refresh_clients a) = groups_panel a
  /\ event_log (_refresh_clients a) = event_log a.
Proof.
  unfold _refresh_clients. destruct (_server a) as [srv|] eqn:Hs.
  - pose proof (refresh_loop_frame (server_clients srv) a []) as H.
    destruct (refresh_clients_loop (server_clients srv) a []) as [a1 data].
    simpl in *. destruct H as [H1 [H2 [H3 [H4 [H5 [H6 H7]]]]]].
    split; [congruence|]. split; [exact H2|]. split; congruence.
  - simpl. split; [exact Hs|]. split; [apply same_graph_refl|]. split; reflexivity.
Qed.

(** Every refresh attaches one more listener to each client it scans. *)
Lemma refresh_clients_adds_listeners (a : App) (c : cref) :
  client_subscriptions (_refresh_clients a) c
  = client_subscriptions a c + count_occ Nat.eq_dec (scanned_clients a) c.
Proof.
  unfold _refresh_clients, scanned_clients.
  destruct (_server a) as [srv|].
  - pose proof (refresh_loop_listeners (server_clients srv) c a []) as H.
    destruct (refresh_clients_loop (server_clients srv) a []) as [a1 data].
    exact H.
  - simpl. unfold client_subscriptions. simpl. lia.
Qed.

(** C8.  With a server, [_refresh_clients] replaces the client snapshot by one
    entry per client of the server, in the server's order; each entry holds the
    client's id, its name, the values of its roles and the id of its group, or
    [None] when it has no group. *)
Theorem refresh_clients_snapshot (a : App) (srv : SendspinServer)
    (Hsrv : _server a = Some srv) :
  clients_panel (_refresh_clients a)
  = map (fun c =>
           let o := cheap (dom a) c in
           mkClientData (client_id o) (name o) (map value (roles o))
             (option_map (fun g => group_id (gheap (dom a) g)) (group o)))
        (server_clients srv).
Proof.
  unfold _refresh_clients. rewrite Hsrv.
  pose proof (refresh_loop_data (server_clients srv) a []) as H.
  destruct (refresh_clients_loop (server_clients srv) a []) as [a1 data].
  simpl in *. subst data. apply map_ext. intros c.
  unfold client_data. destruct (group (cheap (dom a) c)); reflexivity.
Qed.

Lemma refresh_clients_snapshot_witness :
  clients_panel (_refresh_clients Session.running)
  = [mkClientData "c1" "Kitchen" ["player"] None;
     mkClientData "c2" "Hall" ["player"] None].
Proof.
  exact (refresh_clients_snapshot Session.running Session.srv0 eq_refl).
Defined.

(** C1.  The refresh does not look whether a client already has the
    controller's listener: after two refreshes with "c1" connected, "c1"
    carries two of them, and the controller holds two tokens for it. *)
Theorem refresh_clients_twice_two_listeners :
  client_subscriptions (_refresh_clients (_refresh_clients Session.running_one)) 0 = 2
  /\ _event_unsubscribers (_refresh_clients (_refresh_clients Session.running_one))
     = [mkUnsub (EClient 0) 0; mkUnsub (EClient 0) 1].
Proof. split; reflexivity. Qed.

End RefreshClientsFacts.

(** ** Starting the server, and refreshing without one *)

Module ServerFacts.
Import Collaborator Widgets SendspinGUIApp Obs.

(** C7.  Without a server, [_refresh_clients] empties the client snapshot and
    [_refresh_groups] the group snapshot; every other field of the
    application (the domain with its listeners, the unsubscribe list, the log,
    the status, the other snapshot) is as before. *)
Theorem refresh_without_server_clears (a : App) (Hnone : _server a = None) :
  _refresh_clients a
  = mkApp None (_event_unsubscribers a) (dom a) [] (groups_panel a)
          (event_log a) (status_label a) (server_state a)
  /\ _refresh_groups a
     = mkApp None (_event_unsubscribers a) (dom a) (clients_panel a) []
             (event_log a) (status_label a) (server_state a).
Proof.
  unfold _refresh_clients, _refresh_groups. rewrite Hnone. simpl.
  rewrite Hnone. split; reflexivity.
Qed.

Lemma refresh_without_server_clears_witness :
  _server Session.idle = None
  /\ clients_panel (_refresh_clients Session.idle) = []
  /\ groups_panel (_refresh_groups Session.idle) = [].
Proof.
  split; [reflexivity|].
  destruct (refresh_without_server_clears Session.idle eq_refl) as [Hc Hg].
  rewrite Hc, Hg. split; reflexivity.
Defined.

(** C6.  When [start_server] raises [e], the completion callback of
    [_start_server] is called with [(None, e)]; it appends to the event log,
    at level "error", the time-stamped message "Failed to start server: "
    followed by the text of [e], and sets the running state to [false].  When
    nothing is raised the running state is set to [true]. *)
Theorem start_server_completion (env : Env) (server_id server_name : string)
    (port : Z) (enable_mdns : bool) (a : App) :
  (forall e : Exception,
     _start_server env server_id server_name port enable_mdns (Some e) a
     = start_on_complete env server_id server_name port tt (Some e)
         (fst (_start server_id server_name (Some e)
                 (_log_event env ("Starting server '" +++ server_name +++ "'...")
                    "info" a)))
     /\ event_log
          (_start_server env server_id server_name port enable_mdns (Some e) a)
        = event_log a
          ++ [("[" +++ PyStr.drop_last3
                         (strftime_now env (List.length (event_log a)))
               +++ "] " +++ "Starting server '" +++ server_name +++ "'...",
               "info");
              ("[" +++ PyStr.drop_last3
                         (strftime_now env (S (List.length (event_log a))))
               +++ "] " +++ "Failed to start server: " +++ message e,
               "error")]
     /\ server_state
          (_start_server env server_id server_name port enable_mdns (Some e) a)
        = false)
  /\ server_state
       (_start_server env server_id server_name port enable_mdns None a)
     = true.
Proof.
  split; [intros e; split; [|split]|]; try reflexivity.
  unfold _start_server, run_coroutine, _start, start_on_complete, _log_event.
  simpl. rewrite length_app, <- app_assoc. simpl.
  rewrite Nat.add_1_r. reflexivity.
Qed.

(** The scenario of the specification: port 8927 is in use. *)
Lemma start_server_address_in_use_example :
  let a' := _start_server Session.env0 "srv" "Test" 8927%Z true
              (Some (mkException "address in use")) Session.idle in
  event_log a'
  = [("[12:00:00.000] Starting server 'Test'...", "info");
     ("[12:00:00.000] Failed to start server: address in use", "error")]
  /\ server_state a' = false.
Proof. split; reflexivity. Qed.

End ServerFacts.

(** ** Reconciliation of the group list *)

Module RefreshGroupsFacts.
Import Collaborator Widgets SendspinGUIApp Obs RefreshClientsFacts.

Lemma collect_groups_app (d : Domain) (cs1 cs2 : list cref) :
  forall groups,
    collect_groups d (cs1 ++ cs2) groups
    = collect_groups d cs2 (collect_groups d cs1 groups).
Proof.
  induction cs1 as [|c cs1 IH]; intros groups; simpl; [reflexivity|].
  destruct (group (cheap d c)) as [g|]; [|apply IH].
  destruct (negb (dict_contains (group_id (gheap d g)) groups)); apply IH.
Qed.

Lemma dict_contains_In (k : string) (groups : list (string * gref)) :
  dict_contains k groups = true <-> In k (map fst groups).
Proof.
  unfold dict_contains. rewrite existsb_exists, in_map_iff. split.
  - intros [p [Hin Hk]]. apply String.eqb_eq in Hk. now exists p.
  - intros [p [Hk Hin]]. exists p. split; [assumption|]. now apply String.eqb_eq.
Qed.

Lemma first_occurrences_In (l : list string) (x : string) :
  In x (first_occurrences l) <-> In x l.
Proof.
  unfold first_occurrences. rewrite <- in_rev, nodup_In, <- in_rev. reflexivity.
Qed.

Lemma first_occurrences_NoDup (l : list string) : NoDup (first_occurrences l).
Proof. unfold first_occurrences. apply NoDup_rev, NoDup_nodup. Qed.

Lemma first_occurrences_snoc (l : list string) (x : string) :
  first_occurrences (l ++ [x])
  = if in_dec string_dec x l then first_occurrences l
    else first_occurrences l ++ [x].
Proof.
  unfold first_occurrences. rewrite rev_app_distr. simpl.
  destruct (in_dec string_dec x (rev l)) as [Hin|Hnin];
    destruct (in_dec string_dec x l) as [Hin'|Hnin']; try reflexivity.
  - elim Hnin'. now apply in_rev.
  - elim Hnin. now apply in_rev in Hin'.
Qed.

Lemma referenced_groups_snoc (d : Domain) (cs : list cref) (c : cref) :
  referenced_groups d (cs ++ [c])
  = referenced_groups d cs
    ++ match group (cheap d c) with Some g => [g] | None => [] end.
Proof.
  unfold referenced_groups. rewrite flat_map_app. simpl. now rewrite app_nil_r.
Qed.

Lemma referenced_groups_In (d : Domain) (cs : list cref) (g : gref) :
  In g (referenced_groups d cs)
  <-> exists c, In c cs /\ group (cheap d c) = Some g.
Proof.
  unfold referenced_groups. rewrite in_flat_map. split.
  - intros [c [Hc Hg]]. exists c. split; [assumption|].
    destruct (group (cheap d c)) as [g'|]; simpl in Hg; [|contradiction].
    destruct Hg as [->|[]]. reflexivity.
  - intros [c [Hc Hg]]. exists c. split; [assumption|]. rewrite Hg. now left.
Qed.

Lemma find_app_split {A : Type} (f : A -> bool) (l1 l2 : list A) :
  find f (l1 ++ l2)
  = match find f l1 with Some x => Some x | None => find f l2 end.
Proof.
  induction l1 as [|x l1 IH]; simpl; [reflexivity|].
  destruct (f x); [reflexivity | exact IH].
Qed.

Lemma find_none_iff {A : Type} (f : A -> bool) (l : list A) :
  find f l = None <-> forall x, In x l -> f x = false.
Proof.
  split; [apply find_none|].
  induction l as [|x l IH]; simpl; intros H; [reflexivity|].
  rewrite (H x (or_introl eq_refl)). apply IH. intros y Hy. apply H. now right.
Qed.

(** What the dictionary of [_refresh_groups] holds once the clients [cs] were
    scanned: the identifiers in the order of their first occurrence, each with
    the first group met under it. *)
Lemma collect_groups_spec (d : Domain) (cs : list cref) :
  map fst (collect_groups d cs []) = first_occurrences (referenced_ids d cs)
  /\ Forall (fun p => first_ref d (fst p) cs = Some (snd p))
            (collect_groups d cs []).
Proof.
  induction cs as [|c cs [IHk IHv]] using rev_ind.
  - split; [reflexivity | constructor].
  - rewrite collect_groups_app. simpl.
    unfold referenced_ids, first_ref in *. rewrite referenced_groups_snoc.
    assert (Hold : Forall (fun p =>
              find (fun g => (group_id (gheap d g) =? fst p)%string)
                (referenced_groups d cs
                 ++ match group (cheap d c) with Some g => [g] | None => [] end)
              = Some (snd p)) (collect_groups d cs [])).
    { eapply Forall_impl; [|exact IHv]. intros p Hp. simpl in Hp.
      rewrite find_app_split, Hp. reflexivity. }
    destruct (group (cheap d c)) as [g|].
    + rewrite map_app. simpl. rewrite first_occurrences_snoc.
      destruct (dict_contains (group_id (gheap d g)) (collect_groups d cs []))
        eqn:Hc; simpl.
      * apply dict_contains_In in Hc. rewrite IHk, first_occurrences_In in Hc.
        destruct (in_dec string_dec _ _) as [_|Hn]; [|contradiction].
        split; assumption.
      * assert (Hn : ~ In (group_id (gheap d g))
                       (map (fun g0 => group_id (gheap d g0))
                            (referenced_groups d cs))).
        { intros Hin. rewrite <- first_occurrences_In, <- IHk in Hin.
          apply dict_contains_In in Hin. congruence. }
        destruct (in_dec string_dec _ _) as [Hy|_]; [contradiction|].
        split.
        -- rewrite map_app, IHk. reflexivity.
        -- apply Forall_app. split; [exact Hold|].
           constructor; [|constructor]. simpl.
           rewrite find_app_split.
           replace (find _ (referenced_groups d cs)) with (@None gref).
           ++ simpl. now rewrite String.eqb_refl.
           ++ symmetry. apply find_none_iff. intros g0 Hg0.
              apply String.eqb_neq. intros Heq. apply Hn.
              rewrite <- Heq. apply in_map_iff. now exists g0.
    + rewrite app_nil_r in *. split; assumption.
Qed.

Lemma first_ref_Some (d : Domain) (gid : string) (cs : list cref) (g : gref) :
  first_ref d gid cs = Some g ->
  group_id (gheap d g) = gid
  /\ exists c, In c cs /\ group (cheap d c) = Some g.
Proof.
  unfold first_ref. intros H. apply find_some in H. destruct H as [Hin Heq].
  split; [now apply String.eqb_eq|]. now apply referenced_groups_In.
Qed.

Lemma refresh_groups_panel (a : App) :
  groups_panel (_refresh_groups a)
  = map (fun p => group_data (dom a) (snd p))
        (collect_groups (dom a) (scanned_clients a) []).
Proof.
  unfold _refresh_groups, scanned_clients.
  destruct (_server a); reflexivity.
Qed.

Lemma refresh_groups_frame (a : App) :
  _server (_refresh_groups a) = _server a
  /\ dom (_refresh_groups a) = dom a
  /\ _event_unsubscribers (_refresh_groups a) = _event_unsubscribers a
  /\ clients_panel (_refresh_groups a) = clients_panel a
  /\ event_log (_refresh_groups a) = event_log a.
Proof.
  unfold _refresh_groups. destruct (_server a) eqn:Hs; simpl; rewrite ?Hs;
    repeat split.
Qed.

(** C5.  A second [_refresh_groups] with no change of the domain in between
    leaves the same group snapshot; indeed the whole application state is the
    same. *)
Theorem refresh_groups_idempotent (a : App) :
  groups_panel (_refresh_groups (_refresh_groups a))
  = groups_panel (_refresh_groups a)
  /\ _refresh_groups (_refresh_groups a) = _refresh_groups a.
Proof.
  unfold _refresh_groups. destruct (_server a) as [srv|] eqn:Hs; simpl;
    rewrite Hs; simpl; split; reflexivity.
Qed.

(** C2.  The group snapshot made by [_refresh_groups] lists no identifier
    twice; an identifier is listed exactly when some scanned client refers to a
    group that carries it; the identifiers come in the order in which the scan
    first meets them; and each entry holds the id, name, state, volume, muted
    flag and member ids of the first group met under its identifier.  A group no
    client refers to is therefore absent, whatever its own member list says. *)
Theorem refresh_groups_snapshot (a : App) :
  NoDup (map gd_id (groups_panel (_refresh_groups a)))
  /\ (forall gid,
        In gid (map gd_id (groups_panel (_refresh_groups a)))
        <-> exists c g, In c (scanned_clients a)
                        /\ group (cheap (dom a) c) = Some g
                        /\ group_id (gheap (dom a) g) = gid)
  /\ map gd_id (groups_panel (_refresh_groups a))
     = first_occurrences (referenced_ids (dom a) (scanned_clients a))
  /\ Forall (fun e =>
       exists g, first_ref (dom a) (gd_id e) (scanned_clients a) = Some g
                 /\ e = mkGroupData
                          (group_id (gheap (dom a) g))
                          (group_name (gheap (dom a) g))
                          (state (gheap (dom a) g))
                          (volume (gheap (dom a) g))
                          (muted (gheap (dom a) g))
                          (map (fun c => client_id (cheap (dom a) c))
                               (clients (gheap (dom a) g))))
       (groups_panel (_refresh_groups a)).
Proof.
  rewrite refresh_groups_panel.
  destruct (collect_groups_spec (dom a) (scanned_clients a)) as [Hk Hv].
  assert (Hids : map gd_id
            (map (fun p => group_data (dom a) (snd p))
                 (collect_groups (dom a) (scanned_clients a) []))
          = first_occurrences (referenced_ids (dom a) (scanned_clients a))).
  { rewrite <- Hk, map_map. apply map_ext_in. intros p Hp.
    rewrite Forall_forall in Hv. specialize (Hv p Hp).
    apply first_ref_Some in Hv. simpl. apply Hv. }
  split; [|split; [|split]].
  - rewrite Hids. apply first_occurrences_NoDup.
  - intros gid. rewrite Hids, first_occurrences_In.
    unfold referenced_ids. rewrite in_map_iff. split.
    + intros [g [Hg Hin]]. apply referenced_groups_In in Hin.
      destruct Hin as [c [Hc Hcg]]. now exists c, g.
    + intros [c [g [Hc [Hcg Hg]]]]. exists g. split; [assumption|].
      apply referenced_groups_In. now exists c.
  - exact Hids.
  - apply Forall_map. eapply Forall_impl; [|exact Hv].
    intros p Hp. simpl in Hp. exists (snd p).
    pose proof (first_ref_Some _ _ _ _ Hp) as [Hid _].
    simpl. rewrite Hid. split; [exact Hp|]. unfold group_data. now rewrite Hid.
Qed.

End RefreshGroupsFacts.

(** ** Stopping the server *)

Module StopFacts.
Import Collaborator Widgets SendspinGUIApp Obs RefreshClientsFacts.

Lemma has_token_detach_same (t : nat) (ls : list Listener) :
  has_token t (detach t ls) = false.
Proof.
  unfold has_token, detach. induction ls as [|l ls IH]; simpl; [reflexivity|].
  destruct (l_token l =? t) eqn:E; simpl; [exact IH|]. now rewrite E.
Qed.

Lemma has_token_detach_mono (t t' : nat) (ls : list Listener) :
  has_token t (detach t' ls) = true -> has_token t ls = true.
Proof.
  unfold has_token, detach. induction ls as [|l ls IH]; simpl; [trivial|].
  destruct (l_token l =? t') eqn:E; simpl.
  - intros H. rewrite (IH H). apply orb_true_r.
  - destruct (l_token l =? t); simpl; [trivial | exact IH].
Qed.

Lemma call_unsub_detaches (u : Unsub) (a : App) : live u (call_unsub u a) = false.
Proof.
  destruct u as [[|c|g] t]; unfold live, call_unsub; simpl.
  - destruct (_server a); simpl; [apply has_token_detach_same | reflexivity].
  - rewrite upd_same. simpl. apply has_token_detach_same.
  - rewrite upd_same. simpl. apply has_token_detach_same.
Qed.

Lemma call_unsub_attaches_nothing (u u' : Unsub) (a : App) :
  live u (call_unsub u' a) = true -> live u a = true.
Proof.
  destruct u as [[|c|g] t], u' as [[|c'|g'] t']; unfold live, call_unsub; simpl;
    try (intros H; exact H).
  - destruct (_server a); simpl; [apply has_token_detach_mono | trivial].
  - destruct (Nat.eq_dec c c') as [->|Hne].
    + rewrite upd_same. simpl. apply has_token_detach_mono.
    + rewrite upd_other by assumption. trivial.
  - destruct (Nat.eq_dec g g') as [->|Hne].
    + rewrite upd_same. simpl. apply has_token_detach_mono.
    + rewrite upd_other by assumption. trivial.
Qed.

Lemma unsubscribe_each_attaches_nothing (us : list Unsub) (u : Unsub) :
  forall a, live u (unsubscribe_each us a) = true -> live u a = true.
Proof.
  induction us as [|u0 us IH]; intros a; simpl; [trivial|].
  intros H. apply IH in H. now apply call_unsub_attaches_nothing in H.
Qed.

Lemma unsubscribe_each_detaches (us : list Unsub) (u : Unsub) :
  forall a, In u us -> live u (unsubscribe_each us a) = false.
Proof.
  induction us as [|u0 us IH]; intros a Hin; simpl; [contradiction|].
  destruct Hin as [->|Hin]; [|now apply IH].
  destruct (live u (unsubscribe_each us (call_unsub u a))) eqn:E; [|reflexivity].
  apply unsubscribe_each_attaches_nothing in E.
  now rewrite call_unsub_detaches in E.
Qed.

Lemma unsubscribe_each_calls (us : list Unsub) :
  forall a, unsub_calls (dom (unsubscribe_each us a)) = unsub_calls (dom a) ++ us.
Proof.
  induction us as [|u0 us IH]; intros a; simpl; [now rewrite app_nil_r|].
  rewrite IH.
  assert (H : unsub_calls (dom (call_unsub u0 a)) = unsub_calls (dom a) ++ [u0])
    by (destruct u0 as [[|c|g] t]; reflexivity).
  rewrite H, <- app_assoc. reflexivity.
Qed.

Lemma call_unsub_keeps_list (u : Unsub) (a : App) :
  _event_unsubscribers (call_unsub u a) = _event_unsubscribers a.
Proof. destruct u as [[|c|g] t]; reflexivity. Qed.

Lemma unsubscribe_each_keeps_list (us : list Unsub) :
  forall a, _event_unsubscribers (unsubscribe_each us a) = _event_unsubscribers a.
Proof.
  induction us as [|u0 us IH]; intros a; simpl; [reflexivity|].
  now rewrite IH, call_unsub_keeps_list.
Qed.

Lemma live_after_stop (env : Env) (error : option Exception) (u : Unsub) (a : App) :
  live u (stop_on_complete env tt error a)
  = match u_entity u with
    | EServer => false
    | _ => live u (unsubscribe_each (_event_unsubscribers a) a)
    end.
Proof.
  unfold stop_on_complete. fold (unsubscribe_each (_event_unsubscribers a) a).
  destruct u as [[|c|g] t], error; reflexivity.
Qed.

(** C9.  When the stop submission completes, with a result or with an error,
    the callback calls every callable of [_event_unsubscribers] once, in list
    order (none of the registrations is attached afterwards), empties the
    list, drops the server, sets the running state to [false] and clears the
    client and group snapshots. *)
Theorem stop_server_completion (env : Env) (close : option Exception) (a : App)
    (srv : SendspinServer) (Hsrv : _server a = Some srv) :
  _stop_server env close a
  = stop_on_complete env tt close (_log_event env "Stopping server..." "info" a)
  /\ unsub_calls (dom (_stop_server env close a))
     = unsub_calls (dom a) ++ _event_unsubscribers a
  /\ (forall u, In u (_event_unsubscribers a) ->
                live u (_stop_server env close a) = false)
  /\ _event_unsubscribers (_stop_server env close a) = []
  /\ _server (_stop_server env close a) = None
  /\ server_state (_stop_server env close a) = false
  /\ clients_panel (_stop_server env close a) = []
  /\ groups_panel (_stop_server env close a) = [].
Proof.
  assert (Hrun : _stop_server env close a
                 = stop_on_complete env tt close
                     (_log_event env "Stopping server..." "info" a)).
  { unfold _stop_server, run_coroutine, _stop. rewrite Hsrv. simpl.
    rewrite Hsrv. reflexivity. }
  rewrite Hrun. split; [reflexivity|].
  split; [|split; [|destruct close; repeat split]].
  - unfold stop_on_complete.
    fold (unsubscribe_each
            (_event_unsubscribers (_log_event env "Stopping server..." "info" a))
            (_log_event env "Stopping server..." "info" a)).
    destruct close; simpl; rewrite unsubscribe_each_calls; reflexivity.
  - intros u Hin. rewrite live_after_stop.
    destruct (u_entity u); [reflexivity| |];
      apply unsubscribe_each_detaches; exact Hin.
Qed.

Lemma stop_server_completion_witness :
  _server (_refresh_clients Session.running) = Some Session.srv0
  /\ unsub_calls (dom (_stop_server Session.env0 None
                         (_refresh_clients Session.running)))
     = [mkUnsub (EClient 0) 0; mkUnsub (EClient 1) 1]
  /\ _server (_stop_server Session.env0 None (_refresh_clients Session.running))
     = None.
Proof.
  split; [reflexivity|].
  destruct (stop_server_completion Session.env0 None
              (_refresh_clients Session.running) Session.srv0 eq_refl)
    as [_ [Hcalls [_ [_ [Hnone _]]]]].
  split; [rewrite Hcalls; reflexivity | exact Hnone].
Defined.

End StopFacts.

(** ** Creating a group and removing a member *)

Module GroupFacts.
Import Collaborator Widgets SendspinGUIApp Obs RefreshClientsFacts
       RefreshGroupsFacts.

(** *** The collaborator's operations, field by field *)

Lemma remove_cref_absent (c : cref) (l : list cref) :
  ~ In c l -> remove_cref c l = l.
Proof.
  unfold remove_cref. induction l as [|x l IH]; simpl; intros H; [reflexivity|].
  destruct (Nat.eqb_spec x c) as [->|Hne]; simpl.
  - elim H. now left.
  - f_equal. apply IH. intros Hin. apply H. now right.
Qed.

Lemma remove_cref_In (c c' : cref) (l : list cref) :
  In c' (remove_cref c l) <-> In c' l /\ c' <> c.
Proof.
  unfold remove_cref. rewrite filter_In, negb_true_iff, Nat.eqb_neq. reflexivity.
Qed.

Lemma ungroup_client_id (c c' : cref) (d : Domain) :
  client_id (cheap (ungroup c d) c') = client_id (cheap d c').
Proof.
  unfold ungroup. destruct (group (cheap d c)); simpl; [|reflexivity].
  destruct (Nat.eq_dec c' c) as [->|Hne];
    [rewrite upd_same | rewrite upd_other by assumption]; reflexivity.
Qed.

Lemma ungroup_group (c c' : cref) (d : Domain) :
  group (cheap (ungroup c d) c')
  = if c' =? c then None else group (cheap d c').
Proof.
  unfold ungroup. destruct (group (cheap d c)) eqn:Hg; simpl.
  - destruct (Nat.eqb_spec c' c) as [->|Hne];
      [rewrite upd_same | rewrite upd_other by assumption]; reflexivity.
  - destruct (Nat.eqb_spec c' c) as [->|Hne]; [exact Hg | reflexivity].
Qed.

Lemma ungroup_group_id (c : cref) (g' : gref) (d : Domain) :
  group_id (gheap (ungroup c d) g') = group_id (gheap d g').
Proof.
  unfold ungroup. destruct (group (cheap d c)) as [g0|]; simpl; [|reflexivity].
  destruct (Nat.eq_dec g' g0) as [->|Hne];
    [rewrite upd_same | rewrite upd_other by assumption]; reflexivity.
Qed.

Lemma ungroup_clients_absent (c : cref) (g' : gref) (d : Domain) :
  ~ In c (clients (gheap d g')) ->
  clients (gheap (ungroup c d) g') = clients (gheap d g').
Proof.
  intros Hn. unfold ungroup. destruct (group (cheap d c)) as [g0|]; simpl;
    [|reflexivity].
  destruct (Nat.eq_dec g' g0) as [->|Hne].
  - rewrite upd_same. simpl. now apply remove_cref_absent.
  - now rewrite upd_other by assumption.
Qed.

Lemma ungroup_clients_own (c : cref) (g : gref) (d : Domain) :
  group (cheap d c) = Some g ->
  clients (gheap (ungroup c d) g) = remove_cref c (clients (gheap d g)).
Proof.
  intros Hg. unfold ungroup. rewrite Hg. simpl. now rewrite upd_same.
Qed.

Lemma add_client_client_id (g : gref) (c c' : cref) (d : Domain) :
  client_id (cheap (add_client g c d) c') = client_id (cheap d c').
Proof.
  unfold add_client. simpl.
  destruct (Nat.eq_dec c' c) as [->|Hne];
    [rewrite upd_same | rewrite upd_other by assumption]; simpl;
    apply ungroup_client_id.
Qed.

Lemma add_client_group (g : gref) (c c' : cref) (d : Domain) :
  group (cheap (add_client g c d) c')
  = if c' =? c then Some g else group (cheap d c').
Proof.
  unfold add_client. simpl.
  destruct (Nat.eqb_spec c' c) as [->|Hne].
  - now rewrite upd_same.
  - rewrite upd_other by assumption. rewrite ungroup_group.
    apply Nat.eqb_neq in Hne. now rewrite Hne.
Qed.

Lemma add_client_group_id (g : gref) (c : cref) (g' : gref) (d : Domain) :
  group_id (gheap (add_client g c d) g') = group_id (gheap d g').
Proof.
  unfold add_client. simpl.
  destruct (Nat.eq_dec g' g) as [->|Hne];
    [rewrite upd_same | rewrite upd_other by assumption]; simpl;
    apply ungroup_group_id.
Qed.

Lemma add_client_clients (g : gref) (c : cref) (d : Domain) :
  ~ In c (clients (gheap d g)) ->
  clients (gheap (add_client g c d) g) = clients (gheap d g) ++ [c].
Proof.
  intros Hn. unfold add_client. simpl. rewrite upd_same. simpl.
  now rewrite ungroup_clients_absent.
Qed.

(** *** Adding the clients of a list *)

Lemma add_each_client_id (g : gref) (cs : list cref) (c : cref) :
  forall d, client_id (cheap (add_each g cs d) c) = client_id (cheap d c).
Proof.
  induction cs as [|c0 cs IH]; intros d; simpl; [reflexivity|].
  unfold add_each in *. simpl. rewrite IH. apply add_client_client_id.
Qed.

Lemma add_each_group_id (g : gref) (cs : list cref) (g' : gref) :
  forall d, group_id (gheap (add_each g cs d) g') = group_id (gheap d g').
Proof.
  induction cs as [|c0 cs IH]; intros d; simpl; [reflexivity|].
  unfold add_each in *. simpl. rewrite IH. apply add_client_group_id.
Qed.

Lemma add_each_group (g : gref) (cs : list cref) (c : cref) :
  forall d,
    group (cheap (add_each g cs d) c)
    = if existsb (Nat.eqb c) cs then Some g else group (cheap d c).
Proof.
  induction cs as [|c0 cs IH]; intros d; [reflexivity|].
  change (add_each g (c0 :: cs) d) with (add_each g cs (add_client g c0 d)).
  rewrite IH, add_client_group. simpl.
  destruct (c =? c0), (existsb (Nat.eqb c) cs); reflexivity.
Qed.

Lemma existsb_eqb_In (c : cref) (cs : list cref) :
  existsb (Nat.eqb c) cs = true <-> In c cs.
Proof.
  rewrite existsb_exists. split.
  - intros [x [Hx He]]. apply Nat.eqb_eq in He. now subst.
  - intros H. exists c. split; [assumption | apply Nat.eqb_refl].
Qed.

Lemma add_each_group_in (g : gref) (cs : list cref) (c : cref) (d : Domain) :
  In c cs -> group (cheap (add_each g cs d) c) = Some g.
Proof.
  intros H. apply existsb_eqb_In in H. now rewrite add_each_group, H.
Qed.

Lemma add_each_group_out (g : gref) (cs : list cref) (c : cref) (d : Domain) :
  ~ In c cs -> group (cheap (add_each g cs d) c) = group (cheap d c).
Proof.
  intros H. rewrite add_each_group.
  destruct (existsb (Nat.eqb c) cs) eqn:E; [|reflexivity].
  apply existsb_eqb_In in E. contradiction.
Qed.

Lemma add_each_clients (g : gref) (cs : list cref) :
  forall d,
    NoDup cs ->
    (forall c, In c cs -> ~ In c (clients (gheap d g))) ->
    clients (gheap (add_each g cs d) g) = clients (gheap d g) ++ cs.
Proof.
  induction cs as [|c0 cs IH]; intros d Hnd Hfresh.
  - simpl. now rewrite app_nil_r.
  - change (add_each g (c0 :: cs) d) with (add_each g cs (add_client g c0 d)).
    inversion Hnd as [|? ? Hc0 Hnd']; subst.
    assert (Hadd : clients (gheap (add_client g c0 d) g)
                   = clients (gheap d g) ++ [c0])
      by (apply add_client_clients, Hfresh; now left).
    rewrite IH; [rewrite Hadd, <- app_assoc; reflexivity | assumption |].
    intros c Hc. rewrite Hadd. intros Hin. apply in_app_or in Hin.
    destruct Hin as [Hin|[->|[]]].
    + apply (Hfresh c); [now right | assumption].
    + contradiction.
Qed.

(** *** The loop of [_create] *)

Lemma get_client_ext (d d' : Domain) (srv : SendspinServer) (cid : string) :
  (forall c, client_id (cheap d' c) = client_id (cheap d c)) ->
  get_client d' srv cid = get_client d srv cid.
Proof.
  intros H. unfold get_client.
  induction (server_clients srv) as [|c l IH]; simpl; [reflexivity|].
  now rewrite H, IH.
Qed.

Lemma resolved_ext (d d' : Domain) (srv : SendspinServer) (ids : list string) :
  (forall c, client_id (cheap d' c) = client_id (cheap d c)) ->
  resolved d' srv ids = resolved d srv ids.
Proof.
  intros H. unfold resolved. apply flat_map_ext. intros cid.
  now rewrite (get_client_ext d d' srv cid H).
Qed.

Lemma create_loop_runs (g : gref) (srv : SendspinServer) (ids : list string) :
  forall a,
    _server a = Some srv ->
    create_loop g ids a
    = (set_dom (add_each g (resolved (dom a) srv ids) (dom a)) a, None).
Proof.
  induction ids as [|cid ids IH]; intros a Hsrv.
  - simpl. destruct a; reflexivity.
  - cbn [create_loop]. rewrite Hsrv.
    unfold resolved. cbn [flat_map]. fold (resolved (dom a) srv ids).
    destruct (get_client (dom a) srv cid) as [c|] eqn:Hget.
    + rewrite IH by exact Hsrv. cbn [app].
      change (add_each g (c :: resolved (dom a) srv ids) (dom a))
        with (add_each g (resolved (dom a) srv ids) (add_client g c (dom a))).
      cbn [set_dom dom].
      rewrite (resolved_ext (dom a)) by (intros; apply add_client_client_id).
      reflexivity.
    + rewrite IH by exact Hsrv. reflexivity.
Qed.

Lemma get_client_Some (d : Domain) (srv : SendspinServer) (cid : string) (c : cref) :
  get_client d srv cid = Some c ->
  In c (server_clients srv) /\ client_id (cheap d c) = cid.
Proof.
  unfold get_client. intros H. apply find_some in H.
  destruct H as [Hin He]. split; [assumption | now apply String.eqb_eq].
Qed.

Lemma get_client_connected (d : Domain) (srv : SendspinServer) (cid : string) :
  In cid (connected_ids d srv) -> exists c, get_client d srv cid = Some c.
Proof.
  unfold connected_ids, get_client. intros H. apply in_map_iff in H.
  destruct H as [c [Hc Hin]].
  destruct (find _ (server_clients srv)) as [c'|] eqn:Hf; [now exists c'|].
  apply find_none with (x := c) in Hf; [|assumption].
  rewrite Hc, String.eqb_refl in Hf. discriminate.
Qed.

Lemma resolved_connected (d : Domain) (srv : SendspinServer) (ids : list string) :
  incl (resolved d srv ids) (server_clients srv).
Proof.
  intros c Hc. unfold resolved in Hc. apply in_flat_map in Hc.
  destruct Hc as [cid [_ Hc]].
  destruct (get_client d srv cid) as [c'|] eqn:Hg; simpl in Hc; [|contradiction].
  destruct Hc as [->|[]]. now apply get_client_Some in Hg.
Qed.

Lemma resolved_ids (d : Domain) (srv : SendspinServer) (ids : list string) :
  incl ids (connected_ids d srv) ->
  map (fun c => client_id (cheap d c)) (resolved d srv ids) = ids.
Proof.
  induction ids as [|cid ids IH]; intros Hincl; [reflexivity|].
  unfold resolved in *. simpl.
  destruct (get_client_connected d srv cid) as [c Hc];
    [apply Hincl; now left|].
  rewrite Hc. simpl. apply get_client_Some in Hc as Hid.
  destruct Hid as [_ ->]. f_equal. apply IH.
  intros x Hx. apply Hincl. now right.
Qed.

Lemma resolved_NoDup (d : Domain) (srv : SendspinServer) (ids : list string) :
  incl ids (connected_ids d srv) -> NoDup ids -> NoDup (resolved d srv ids).
Proof.
  intros Hincl Hnd. apply (NoDup_map_inv (fun c => client_id (cheap d c))).
  now rewrite resolved_ids.
Qed.

Lemma resolved_get (d : Domain) (srv : SendspinServer) (ids : list string)
    (cid : string) :
  In cid ids -> incl ids (connected_ids d srv) ->
  exists c, get_client d srv cid = Some c /\ In c (resolved d srv ids).
Proof.
  intros Hin Hincl. destruct (get_client_connected d srv cid) as [c Hc];
    [now apply Hincl|].
  exists c. split; [assumption|]. unfold resolved. apply in_flat_map.
  exists cid. split; [assumption|]. rewrite Hc. now left.
Qed.

(** *** What a refresh shows of a group *)

Lemma find_unique {A : Type} (f : A -> bool) (l : list A) (y : A) :
  (forall x, In x l -> f x = true -> x = y) ->
  (exists x, In x l /\ f x = true) ->
  find f l = Some y.
Proof.
  intros Huniq [x [Hin Hfx]]. destruct (find f l) as [z|] eqn:Hf.
  - apply find_some in Hf. destruct Hf as [Hz Hfz]. f_equal. now apply Huniq.
  - apply find_none with (x := x) in Hf; [congruence | assumption].
Qed.

(** Reading the entry shown under [gid] gives the data of the first group the
    scan meets under [gid]. *)
Lemma shown_group_first_ref (gid : string) (a : App) :
  shown_group gid (_refresh_groups a)
  = option_map (group_data (dom a))
               (first_ref (dom a) gid (scanned_clients a)).
Proof.
  unfold shown_group. rewrite refresh_groups_panel.
  destruct (collect_groups_spec (dom a) (scanned_clients a)) as [Hk Hv].
  assert (Hkeys : forall k, In k (map fst (collect_groups (dom a) (scanned_clients a) []))
            <-> In k (referenced_ids (dom a) (scanned_clients a)))
    by (intros k; rewrite Hk; apply first_occurrences_In).
  clear Hk. revert Hv Hkeys.
  generalize (collect_groups (dom a) (scanned_clients a) []) as groups.
  intros groups Hv Hkeys.
  assert (Hfind :
    find (fun e => (gd_id e =? gid)%string)
         (map (fun p => group_data (dom a) (snd p)) groups)
    = option_map (fun p => group_data (dom a) (snd p))
        (find (fun p => (fst p =? gid)%string) groups)).
  { clear Hkeys. induction groups as [|p groups IH]; [reflexivity|].
    inversion Hv as [|? ? Hp Hv']; subst. simpl.
    apply first_ref_Some in Hp. destruct Hp as [Hid _]. rewrite Hid.
    destruct (fst p =? gid)%string; [reflexivity | now apply IH]. }
  rewrite Hfind. destruct (find _ groups) as [p|] eqn:Hf; simpl.
  - apply find_some in Hf. destruct Hf as [Hin He].
    apply String.eqb_eq in He. rewrite Forall_forall in Hv.
    specialize (Hv p Hin). rewrite He in Hv. now rewrite Hv.
  - assert (Hno : ~ In gid (referenced_ids (dom a) (scanned_clients a))).
    { rewrite <- Hkeys. intros Hin. apply in_map_iff in Hin.
      destruct Hin as [p [Hp Hin]]. apply find_none with (x := p) in Hf;
        [|assumption]. rewrite Hp, String.eqb_refl in Hf. discriminate. }
    unfold first_ref.
    replace (find _ (referenced_groups (dom a) (scanned_clients a)))
      with (@None gref); [reflexivity|].
    symmetry. apply find_none_iff. intros g Hg. apply String.eqb_neq.
    intros Heq. apply Hno. unfold referenced_ids. apply in_map_iff. now exists g.
Qed.

Lemma Grouped_first_ref (srv : SendspinServer) (g : gref) (gid : string)
    (members : list cref) (d : Domain) :
  Grouped srv g gid members d ->
  first_ref d gid (server_clients srv)
  = match members with [] => None | _ :: _ => Some g end.
Proof.
  intros G. unfold first_ref.
  assert (Hothers : forall x, In x (referenced_groups d (server_clients srv)) ->
            (group_id (gheap d x) =? gid)%string = true ->
            x = g /\ members <> []).
  { intros x Hx He. apply String.eqb_eq in He.
    apply referenced_groups_In in Hx. destruct Hx as [c [Hc Hcg]].
    destruct (in_dec Nat.eq_dec c members) as [Hm|Hm].
    - rewrite (grouped_back _ _ _ _ _ G c Hm) in Hcg. injection Hcg as <-.
      split; [reflexivity|]. intros ->. contradiction.
    - elim (grouped_others _ _ _ _ _ G c x Hc Hm Hcg He). }
  destruct members as [|c members].
  - apply find_none_iff. intros x Hx.
    destruct (group_id (gheap d x) =? gid)%string eqn:He; [|reflexivity].
    destruct (Hothers x Hx He) as [_ Hne]. now elim Hne.
  - apply find_unique.
    + intros x Hx He. now destruct (Hothers x Hx He).
    + exists g. split.
      * apply referenced_groups_In. exists c. split.
        -- apply (grouped_connected _ _ _ _ _ G). now left.
        -- apply (grouped_back _ _ _ _ _ G). now left.
      * rewrite (grouped_id _ _ _ _ _ G). apply String.eqb_refl.
Qed.

(** With the group [g] in place, a refresh shows it under [gid] with the ids
    of its members in member order, and does not show it once it has none. *)
Lemma Grouped_member_ids (srv : SendspinServer) (g : gref) (gid : string)
    (members : list cref) (a : App) :
  _server a = Some srv ->
  Grouped srv g gid members (dom a) ->
  member_ids gid (_refresh_groups a)
  = match members with
    | [] => None
    | _ :: _ => Some (map (fun c => client_id (cheap (dom a) c)) members)
    end.
Proof.
  intros Hsrv G. unfold member_ids. rewrite shown_group_first_ref.
  unfold scanned_clients. rewrite Hsrv. rewrite (Grouped_first_ref _ _ _ _ _ G).
  destruct members as [|c members]; [reflexivity|]. simpl.
  now rewrite (grouped_clients _ _ _ _ _ G).
Qed.

Lemma Grouped_same_graph (srv : SendspinServer) (g : gref) (gid : string)
    (members : list cref) (d d' : Domain) :
  same_graph d d' -> Grouped srv g gid members d -> Grouped srv g gid members d'.
Proof.
  intros [Hg [_ Hc]] G.
  assert (Hgrp : forall c, group (cheap d' c) = group (cheap d c))
    by (intros c; apply Hc).
  constructor.
  - apply (grouped_nodup _ _ _ _ _ G).
  - apply (grouped_connected _ _ _ _ _ G).
  - rewrite Hg. apply (grouped_clients _ _ _ _ _ G).
  - rewrite Hg. apply (grouped_id _ _ _ _ _ G).
  - intros c Hm. rewrite Hgrp. now apply (grouped_back _ _ _ _ _ G).
  - intros c g' Hc' Hm Hcg. rewrite Hg. rewrite Hgrp in Hcg.
    now apply (grouped_others _ _ _ _ _ G c g').
Qed.

Lemma Grouped_ungroup (srv : SendspinServer) (g : gref) (gid : string)
    (members : list cref) (d : Domain) (c : cref) :
  In c members ->
  Grouped srv g gid members d ->
  Grouped srv g gid (remove_cref c members) (ungroup c d).
Proof.
  intros Hin G. constructor.
  - apply NoDup_filter, (grouped_nodup _ _ _ _ _ G).
  - intros x Hx. apply remove_cref_In in Hx.
    apply (grouped_connected _ _ _ _ _ G), Hx.
  - rewrite ungroup_clients_own by now apply (grouped_back _ _ _ _ _ G).
    now rewrite (grouped_clients _ _ _ _ _ G).
  - rewrite ungroup_group_id. apply (grouped_id _ _ _ _ _ G).
  - intros x Hx. apply remove_cref_In in Hx. destruct Hx as [Hx Hne].
    rewrite ungroup_group. apply Nat.eqb_neq in Hne. rewrite Hne.
    now apply (grouped_back _ _ _ _ _ G).
  - intros x g' Hx Hm Hxg. rewrite ungroup_group_id. rewrite ungroup_group in Hxg.
    destruct (Nat.eqb_spec x c) as [->|Hne]; [discriminate|].
    apply (grouped_others _ _ _ _ _ G x g'); try assumption.
    intros Hxm. apply Hm. apply remove_cref_In. now split.
Qed.

(** *** Lists of members and of their ids *)

Lemma remove_cref_length (c : cref) (l : list cref) :
  NoDup l -> In c l -> S (List.length (remove_cref c l)) = List.length l.
Proof.
  induction l as [|x l IH]; intros Hnd Hin; [contradiction|].
  inversion Hnd as [|? ? Hx Hnd']; subst.
  unfold remove_cref in *. simpl.
  destruct (Nat.eqb_spec x c) as [->|Hne]; simpl.
  - fold (remove_cref c l). now rewrite remove_cref_absent.
  - destruct Hin as [->|Hin]; [contradiction|]. f_equal. now apply IH.
Qed.

Lemma filter_other_ids (y : string) (l : list string) :
  ~ In y l -> filter (fun x => negb (String.eqb x y)) l = l.
Proof.
  induction l as [|x l IH]; intros Hn; [reflexivity|]. simpl.
  destruct (String.eqb_spec x y) as [->|Hne]; simpl.
  - elim Hn. now left.
  - f_equal. apply IH. intros H. apply Hn. now right.
Qed.

Lemma map_remove_cref (f : cref -> string) (c : cref) (l : list cref) :
  NoDup (map f l) -> In c l ->
  map f (remove_cref c l)
  = filter (fun x => negb (String.eqb x (f c))) (map f l).
Proof.
  induction l as [|x l IH]; intros Hnd Hin; [contradiction|].
  simpl in Hnd. inversion Hnd as [|? ? Hx Hnd']; subst.
  unfold remove_cref in *. simpl.
  destruct (Nat.eqb_spec x c) as [->|Hne]; simpl.
  - rewrite String.eqb_refl. simpl. fold (remove_cref c l).
    rewrite remove_cref_absent, filter_other_ids; [reflexivity | assumption |].
    intros Hc. apply Hx. now apply in_map.
  - destruct Hin as [->|Hin]; [contradiction|].
    destruct (String.eqb_spec (f x) (f c)) as [He|_]; simpl.
    + elim Hx. rewrite He. now apply in_map.
    + f_equal. now apply IH.
Qed.

(** *** The two actions, unfolded *)

Lemma create_group_unfold (env : Env) (a : App) (srv : SendspinServer)
    (client_ids : list string) (group_name : string) :
  _server a = Some srv -> client_ids <> [] ->
  exists a1 msg,
    _server a1 = Some srv
    /\ cheap (dom a1) = cheap (dom a)
    /\ (forall g',
          gheap (dom a1) g'
          = upd (gheap (dom a)) (next_gref (dom a))
              (mkGroup (new_group_id env (next_gref (dom a))) group_name
                 (new_group_state env) (new_group_volume env)
                 (new_group_muted env) []
                 [mkListener (next_token (dom a)) OnGroupEvent]) g')
    /\ _create_group env client_ids group_name a
       = _refresh_groups (_refresh_clients (_log_event env msg "success"
           (set_dom (add_each (next_gref (dom a))
                       (resolved (dom a1) srv client_ids) (dom a1)) a1))).
Proof.
  intros Hsrv Hne. destruct client_ids as [|cid rest]; [now elim Hne|].
  unfold _create_group. rewrite Hsrv. unfold run_coroutine, _create.
  cbn [new_group group_add_event_listener].
  match goal with
  | |- context [create_loop ?g ?ids ?x] =>
      exists x; rewrite (create_loop_runs g srv ids x) by (simpl; exact Hsrv)
  end.
  eexists. split; [simpl; exact Hsrv|]. split; [reflexivity|]. split.
  - intros g'. simpl. destruct (Nat.eq_dec g' (next_gref (dom a))) as [->|Hn].
    + now rewrite !upd_same.
    + now rewrite !upd_other by assumption.
  - unfold create_on_complete. reflexivity.
Qed.

Lemma created_Grouped (env : Env) (d d1 : Domain) (srv : SendspinServer)
    (client_ids : list string) (group_name : string) (ls : list Listener) :
  cheap d1 = cheap d ->
  (forall g',
     gheap d1 g'
     = upd (gheap d) (next_gref d)
         (mkGroup (new_group_id env (next_gref d)) group_name
            (new_group_state env) (new_group_volume env)
            (new_group_muted env) [] ls) g') ->
  NoDup client_ids ->
  incl client_ids (connected_ids d srv) ->
  new_id_unused env d srv ->
  groups_allocated d srv ->
  Grouped srv (next_gref d) (new_group_id env (next_gref d))
    (resolved d srv client_ids)
    (add_each (next_gref d) (resolved d1 srv client_ids) d1).
Proof.
  intros Hc Hg Hnd Hconn Hunused Halloc.
  assert (Hres : resolved d1 srv client_ids = resolved d srv client_ids)
    by (apply resolved_ext; intros c; now rewrite Hc).
  rewrite Hres. constructor.
  - now apply resolved_NoDup.
  - apply resolved_connected.
  - rewrite add_each_clients.
    + rewrite Hg, upd_same. reflexivity.
    + now apply resolved_NoDup.
    + intros c _. rewrite Hg, upd_same. simpl. tauto.
  - rewrite add_each_group_id, Hg, upd_same. reflexivity.
  - intros c Hm. now apply add_each_group_in.
  - intros c g' Hin Hm Hcg. rewrite add_each_group_out in Hcg by assumption.
    rewrite Hc in Hcg.
    assert (Href : In g' (referenced_groups d (server_clients srv)))
      by (apply referenced_groups_In; now exists c).
    unfold groups_allocated, new_id_unused in *.
    rewrite Forall_forall in Halloc, Hunused.
    specialize (Halloc g' Href).
    rewrite add_each_group_id, Hg, upd_other by lia.
    apply Hunused. unfold referenced_ids. apply in_map_iff. now exists g'.
Qed.

Lemma remove_unfold (env : Env) (a : App) (srv : SendspinServer)
    (gid cid : string) (c : cref) (g : gref) :
  _server a = Some srv ->
  get_client (dom a) srv cid = Some c ->
  group (cheap (dom a) c) = Some g ->
  _remove_client_from_group env gid cid a
  = _refresh_groups (_refresh_clients
      (_log_event env ("Removed " +++ cid +++ " from group") "info"
         (set_dom (ungroup c (dom a)) a))).
Proof.
  intros Hsrv Hget Hg. unfold _remove_client_from_group.
  rewrite Hsrv, Hget, Hg. reflexivity.
Qed.

(** After a logged message and a client refresh the graph is the same. *)
Lemma logged_refreshed (env : Env) (msg level : string) (a : App) :
  _server (_refresh_clients (_log_event env msg level a)) = _server a
  /\ same_graph (dom a) (dom (_refresh_clients (_log_event env msg level a))).
Proof.
  destruct (refresh_clients_frame (_log_event env msg level a)) as [H1 [H2 _]].
  split; [exact H1 | exact H2].
Qed.

(** C4, as the code has it.  With a server, for a non-empty list of distinct
    ids that all belong to connected clients, and with the new group's id not
    yet shown for another group: after [_create_group] the snapshot of the new
    group lists exactly these ids, in the order given.  Removing one of them
    with [_remove_client_from_group] leaves, when there were at least two, the
    remaining ids in their order, one fewer; when it was the only member the
    group is no longer shown. *)
Theorem create_group_round_trip (env : Env) (a : App) (srv : SendspinServer)
    (client_ids : list string) (group_name : string)
    (Hsrv : _server a = Some srv)
    (Hne : client_ids <> [])
    (Hnd : NoDup client_ids)
    (Hconn : incl client_ids (connected_ids (dom a) srv))
    (Hunused : new_id_unused env (dom a) srv)
    (Halloc : groups_allocated (dom a) srv) :
  member_ids (new_group_id env (next_gref (dom a)))
    (_create_group env client_ids group_name a)
  = Some client_ids
  /\ forall cid gid', In cid client_ids ->
       member_ids (new_group_id env (next_gref (dom a)))
         (_remove_client_from_group env gid' cid
            (_create_group env client_ids group_name a))
       = (if 2 <=? List.length client_ids
          then Some (filter (fun x => negb (String.eqb x cid)) client_ids)
          else None)
       /\ List.length (filter (fun x => negb (String.eqb x cid)) client_ids)
          = List.length client_ids - 1.
Proof.
  destruct (create_group_unfold env a srv client_ids group_name Hsrv Hne)
    as [a1 [msg [Hs1 [Hc1 [Hg1 Hrun]]]]].
  rewrite Hrun. clear Hrun.
  set (g := next_gref (dom a)) in *. set (gid := new_group_id env g) in *.
  set (members := resolved (dom a) srv client_ids).
  set (D := add_each g (resolved (dom a1) srv client_ids) (dom a1)) in *.
  assert (G : Grouped srv g gid members D)
    by (eapply created_Grouped; eassumption).
  destruct (logged_refreshed env msg "success" (set_dom D a1)) as [Hs2 Hsame2].
  set (a2 := _refresh_clients (_log_event env msg "success" (set_dom D a1))) in *.
  simpl in Hs2, Hsame2. rewrite Hs1 in Hs2.
  assert (G2 : Grouped srv g gid members (dom a2))
    by (eapply Grouped_same_graph; eassumption).
  assert (Hid2 : forall c, client_id (cheap (dom a2) c) = client_id (cheap (dom a) c)).
  { intros c. destruct Hsame2 as [_ [_ Hcl]]. destruct (Hcl c) as [Hid _].
    rewrite Hid. unfold D. rewrite add_each_client_id. now rewrite Hc1. }
  assert (Hids : map (fun c => client_id (cheap (dom a) c)) members = client_ids)
    by (apply resolved_ids; assumption).
  assert (Hmem : members <> [])
    by (intros He; rewrite He in Hids; simpl in Hids; now subst).
  split.
  - rewrite (Grouped_member_ids srv g gid members a2 Hs2 G2).
    destruct members as [|c0 ms] eqn:Hm; [now elim Hmem|].
    rewrite <- Hids. f_equal. apply map_ext. exact Hid2.
  - intros cid gid' Hin.
    destruct (resolved_get (dom a) srv client_ids cid Hin Hconn) as [c [Hget Hcm]].
    fold members in Hcm.
    destruct (refresh_groups_frame a2) as [Hs3 [Hd3 _]].
    set (a3 := _refresh_groups a2) in *. rewrite Hs2 in Hs3.
    assert (Hget3 : get_client (dom a3) srv cid = Some c).
    { rewrite <- Hget. apply get_client_ext. intros c'. rewrite Hd3. apply Hid2. }
    assert (Hgrp3 : group (cheap (dom a3) c) = Some g)
      by (rewrite Hd3; now apply (grouped_back _ _ _ _ _ G2)).
    rewrite (remove_unfold env a3 srv gid' cid c g Hs3 Hget3 Hgrp3).
    assert (G4 : Grouped srv g gid (remove_cref c members) (ungroup c (dom a3)))
      by (rewrite Hd3; now apply Grouped_ungroup).
    destruct (logged_refreshed env ("Removed " +++ cid +++ " from group") "info"
                (set_dom (ungroup c (dom a3)) a3)) as [Hs5 Hsame5].
    set (a5 := _refresh_clients
                 (_log_event env ("Removed " +++ cid +++ " from group") "info"
                    (set_dom (ungroup c (dom a3)) a3))) in *.
    assert (Hs5' : _server a5 = Some srv) by (rewrite Hs5; exact Hs3).
    assert (G5 : Grouped srv g gid (remove_cref c members) (dom a5))
      by exact (Grouped_same_graph _ _ _ _ _ _ Hsame5 G4).
    rewrite (Grouped_member_ids srv g gid _ a5 Hs5' G5).
    assert (Hcid : client_id (cheap (dom a) c) = cid)
      by (now apply get_client_Some in Hget).
    assert (Hrem : map (fun c' => client_id (cheap (dom a5) c')) (remove_cref c members)
                   = filter (fun x => negb (String.eqb x cid)) client_ids).
    { rewrite <- Hids, <- Hcid.
      rewrite <- (map_remove_cref (fun c' => client_id (cheap (dom a) c')))
        by (rewrite ?Hids; assumption).
      apply map_ext. intros c'. destruct Hsame5 as [_ [_ Hcl]].
      destruct (Hcl c') as [Hid _]. rewrite Hid. cbn [dom set_dom].
      rewrite ungroup_client_id, Hd3. apply Hid2. }
    assert (Hlen : S (List.length (remove_cref c members)) = List.length client_ids).
    { rewrite remove_cref_length; [|apply (grouped_nodup _ _ _ _ _ G)|assumption].
      rewrite <- Hids. now rewrite length_map. }
    split.
    + destruct (remove_cref c members) as [|c1 ms] eqn:Hr.
      * simpl in Hlen. rewrite <- Hlen. reflexivity.
      * rewrite <- Hrem. simpl in Hlen. rewrite <- Hlen. reflexivity.
    + rewrite <- Hrem, length_map. lia.
Qed.

Lemma create_group_round_trip_witness :
  member_ids "group-0"
    (_create_group Session.env0 ["c1"; "c2"] "Kitchen" Session.running)
  = Some ["c1"; "c2"]
  /\ member_ids "group-0"
       (_remove_client_from_group Session.env0 "group-0" "c1"
          (_create_group Session.env0 ["c1"; "c2"] "Kitchen" Session.running))
     = Some ["c2"].
Proof.
  assert (Hne : ["c1"; "c2"] <> []) by discriminate.
  assert (Hnd : NoDup ["c1"; "c2"]).
  { constructor; [|constructor; [|constructor]]; simpl; intuition discriminate. }
  assert (Hconn : incl ["c1"; "c2"]
                    (connected_ids (dom Session.running) Session.srv0)).
  { intros x [<-|[<-|[]]]; simpl; tauto. }
  assert (Hunused : new_id_unused Session.env0 (dom Session.running) Session.srv0)
    by constructor.
  assert (Halloc : groups_allocated (dom Session.running) Session.srv0)
    by constructor.
  destruct (create_group_round_trip Session.env0 Session.running Session.srv0
              ["c1"; "c2"] "Kitchen" eq_refl Hne Hnd Hconn Hunused Halloc)
    as [Hcreate Hremove].
  split; [exact Hcreate|].
  destruct (Hremove "c1" "group-0" (or_introl eq_refl)) as [Hr _].
  exact Hr.
Defined.

(** C4, as stated, fails.  An id that no connected client carries is skipped
    by [_create]: asked for "c1" and "zz", the new group is shown with the one
    member "c1".  And a group made of the single client "c1" is not shown at
    all once "c1" is removed, so there is no member list of length 0 to read. *)
Lemma create_group_skips_unknown_id :
  NoDup ["c1"; "zz"]
  /\ member_ids "group-0"
       (_create_group Session.env0 ["c1"; "zz"] "Kitchen" Session.running)
     = Some ["c1"]
  /\ List.length ["c1"] <> List.length ["c1"; "zz"]
  /\ member_ids "group-0"
       (_remove_client_from_group Session.env0 "group-0" "c1"
          (_create_group Session.env0 ["c1"] "Kitchen" Session.running))
     = None.
Proof.
  split; [|split; [reflexivity | split; [discriminate | reflexivity]]].
  constructor; [|constructor; [|constructor]]; simpl; intuition discriminate.
Qed.

End GroupFacts.

(** ** More on the stream panel *)

Module StreamFileFacts.
Import PyStr PyStrFacts StreamPanel StreamPanelBrowse.

Lemma lstrip_fixed (s : string) : first_char_space s = false -> lstrip s = s.
Proof. destruct s as [|c s]; simpl; [reflexivity|]. now intros ->. Qed.

Lemma rstrip_fixed (s : string) : last_char_space s = false -> rstrip s = s.
Proof.
  induction s as [|c s IH]; [reflexivity|]. simpl.
  destruct s as [|c' s'].
  - simpl. now intros ->.
  - intros H. rewrite (IH H). reflexivity.
Qed.

Lemma strip_fixed (s : string) :
  first_char_space s = false -> last_char_space s = false -> strip s = s.
Proof.
  intros Hf Hl. unfold strip. rewrite (lstrip_fixed s Hf). now apply rstrip_fixed.
Qed.

Lemma lstrip_all_space (s : string) : all_space s = true -> lstrip s = "".
Proof.
  induction s as [|c s IH]; simpl; [reflexivity|].
  intros H. apply andb_prop in H. destruct H as [Hc Hs]. rewrite Hc. now apply IH.
Qed.

Lemma rstrip_all_space (s : string) : all_space s = true -> rstrip s = "".
Proof.
  induction s as [|c s IH]; simpl; [reflexivity|].
  intros H. apply andb_prop in H. destruct H as [Hc Hs].
  rewrite (IH Hs), Hc. reflexivity.
Qed.

Lemma lstrip_pad (l s : string) : all_space l = true -> lstrip (l +++ s) = lstrip s.
Proof.
  induction l as [|c l IH]; simpl; [reflexivity|].
  intros H. apply andb_prop in H. destruct H as [Hc Hl]. rewrite Hc. now apply IH.
Qed.

Lemma rstrip_pad (s r : string) : all_space r = true -> rstrip (s +++ r) = rstrip s.
Proof.
  intros Hr. induction s as [|c s IH]; simpl.
  - now apply rstrip_all_space.
  - now rewrite IH.
Qed.

Lemma strip_pad_right (s r : string) :
  all_space r = true -> strip (s +++ r) = strip s.
Proof.
  intros Hr. unfold strip. induction s as [|c s IH]; simpl.
  - now rewrite (lstrip_all_space r Hr).
  - destruct (isspace c); [exact IH|].
    change (String c (s +++ r)) with (String c s +++ r). now apply rstrip_pad.
Qed.

(** White space around a text does not change what [strip] returns. *)
Lemma strip_pad (l s r : string) :
  all_space l = true -> all_space r = true -> strip (l +++ s +++ r) = strip s.
Proof.
  intros Hl Hr. unfold strip at 1. rewrite (lstrip_pad l _ Hl).
  fold (strip (s +++ r)). now apply strip_pad_right.
Qed.

Lemma strip_idempotent (s : string) : strip (strip s) = strip s.
Proof.
  destruct (strip_trims s) as [_ [Hf Hl]]. now apply strip_fixed.
Qed.

Lemma or_else_clean (s : string) :
  or_else (strip s) "all" <> ""
  /\ first_char_space (or_else (strip s) "all") = false
  /\ last_char_space (or_else (strip s) "all") = false.
Proof.
  unfold or_else, truthy.
  destruct (String.eqb_spec (strip s) "") as [He|Hne]; simpl.
  - repeat split. discriminate.
  - destruct (strip_trims s) as [_ [Hf Hl]]. repeat split; assumption.
Qed.

(** X1.  Whatever [_stream_file] hands to the callback is clean: the path is
    not empty, exists, and neither starts nor ends with white space; the group
    id is never empty and carries no white space at its ends either. *)
Theorem stream_file_call_is_clean (env : Env) (w : Entries) (call : StreamFileCall)
    (Hcall : _stream_file env w = Some call) :
  call_file_path call <> ""
  /\ path_exists env (call_file_path call) = true
  /\ first_char_space (call_file_path call) = false
  /\ last_char_space (call_file_path call) = false
  /\ call_group_id call <> ""
  /\ first_char_space (call_group_id call) = false
  /\ last_char_space (call_group_id call) = false.
Proof.
  unfold _stream_file in Hcall.
  destruct (truthy (strip (file_entry w))) eqn:Ht; simpl in Hcall; [|discriminate].
  destruct (path_exists env (strip (file_entry w))) eqn:Hp; simpl in Hcall;
    [|discriminate].
  injection Hcall as <-. simpl.
  destruct (strip_trims (file_entry w)) as [_ [Hf Hl]].
  destruct (or_else_clean (file_group_entry w)) as [Hg [Hgf Hgl]].
  apply truthy_nonempty in Ht. repeat split; assumption.
Qed.

Lemma stream_file_call_is_clean_witness :
  _stream_file Session.env0 (mkEntries "  /music/a.wav " " kitchen ")
  = Some (mkCall "/music/a.wav" "kitchen")
  /\ call_group_id (mkCall "/music/a.wav" "kitchen") <> "".
Proof.
  split; [reflexivity|].
  apply (stream_file_call_is_clean Session.env0
           (mkEntries "  /music/a.wav " " kitchen ")
           (mkCall "/music/a.wav" "kitchen") eq_refl).
Defined.

(** X2.  White space typed around the path or around the group id makes no
    difference to what "Stream File" does. *)
Theorem stream_file_ignores_padding (env : Env) (l1 p r1 l2 g r2 : string)
    (Hl1 : all_space l1 = true) (Hr1 : all_space r1 = true)
    (Hl2 : all_space l2 = true) (Hr2 : all_space r2 = true) :
  _stream_file env (mkEntries (l1 +++ p +++ r1) (l2 +++ g +++ r2))
  = _stream_file env (mkEntries p g).
Proof.
  unfold _stream_file. simpl.
  now rewrite (strip_pad l1 p r1 Hl1 Hr1), (strip_pad l2 g r2 Hl2 Hr2).
Qed.

Lemma stream_file_ignores_padding_witness :
  _stream_file Session.env0 (mkEntries ("  " +++ "/music/a.wav" +++ " ")
                                      (" " +++ "g1" +++ "  "))
  = _stream_file Session.env0 (mkEntries "/music/a.wav" "g1").
Proof.
  apply (stream_file_ignores_padding Session.env0 "  " "/music/a.wav" " "
           " " "g1" "  "); reflexivity.
Defined.



(** X4.  A chosen file whose name ends in a blank is looked up, and would be
    streamed, under its trimmed name: such a file cannot be streamed unless a
    file of the trimmed name exists as well. *)
Theorem browse_padded_name_uses_trimmed (env : Env) (filename : string)
    (t : FileTab) (Hnonempty : filename <> "")
    (Hmissing : path_exists env (strip filename) = false) :
  _stream_file env (entries (_browse_file filename t)) = None.
Proof.
  apply truthy_nonempty in Hnonempty as Ht.
  unfold _browse_file. rewrite Ht. unfold _stream_file. simpl.
  destruct (truthy (strip filename)); simpl; [|reflexivity].
  now rewrite Hmissing.
Qed.

Lemma browse_padded_name_uses_trimmed_witness :
  path_exists (mkEnv (fun _ => "") (fun _ => "") "" 0%Z false
                     (fun p => String.eqb p "/music/b.wav ")) "/music/b.wav "
  = true
  /\ _stream_file (mkEnv (fun _ => "") (fun _ => "") "" 0%Z false
                         (fun p => String.eqb p "/music/b.wav "))
       (entries (_browse_file "/music/b.wav "
                   (mkFileTab (mkEntries "" "") None)))
     = None.
Proof.
  split; [reflexivity|].
  apply browse_padded_name_uses_trimmed; [discriminate | reflexivity].
Defined.

End StreamFileFacts.

(** ** Volume and stop of a group *)

Module GroupActionFacts.
Import Collaborator Widgets SendspinGUIApp Obs Actions Machine
       RefreshClientsFacts RefreshGroupsFacts.

Lemma first_ref_cons (d : Domain) (gid : string) (c : cref) (cs : list cref) :
  first_ref d gid (c :: cs)
  = match group (cheap d c) with
    | Some g => if String.eqb (group_id (gheap d g)) gid then Some g
                else first_ref d gid cs
    | None => first_ref d gid cs
    end.
Proof.
  unfold first_ref, referenced_groups. simpl.
  destruct (group (cheap d c)) as [g|]; reflexivity.
Qed.

Lemma set_volume_loop_first_ref (env : Env) (gid : string) (v : Z) (a : App)
    (cs : list cref) :
  set_volume_loop env cs gid v a
  = match first_ref (dom a) gid cs with
    | Some g =>
        _log_event env
          ("Volume set to " +++ PyStr.str_of_int v +++ " for group " +++ gid)
          "info" (set_dom (set_volume g v (dom a)) a)
    | None => a
    end.
Proof.
  induction cs as [|c cs IH]; [reflexivity|].
  rewrite first_ref_cons. simpl.
  destruct (group (cheap (dom a) c)) as [g|]; [|exact IH].
  destruct (String.eqb (group_id (gheap (dom a) g)) gid); [reflexivity | exact IH].
Qed.

Lemma stop_group_loop_first_ref (env : Env) (gid : string)
    (raised : option Exception) (a : App) (cs : list cref) :
  stop_group_loop env cs gid raised a
  = match first_ref (dom a) gid cs with
    | Some _ => _log_event env ("Stop requested for group " +++ gid) "info" a
    | None => a
    end.
Proof.
  induction cs as [|c cs IH]; [reflexivity|].
  rewrite first_ref_cons. simpl.
  destruct (group (cheap (dom a) c)) as [g|]; [|exact IH].
  destruct (String.eqb (group_id (gheap (dom a) g)) gid); [reflexivity | exact IH].
Qed.

Lemma set_group_volume_scan (env : Env) (gid : string) (v : Z) (a : App) :
  _set_group_volume env gid v a
  = set_volume_loop env (scanned_clients a) gid v a.
Proof.
  unfold _set_group_volume, scanned_clients. destruct (_server a); reflexivity.
Qed.

Lemma stop_group_scan (env : Env) (gid : string) (raised : option Exception)
    (a : App) :
  _stop_group env gid raised a
  = stop_group_loop env (scanned_clients a) gid raised a.
Proof.
  unfold _stop_group, scanned_clients. destruct (_server a); reflexivity.
Qed.

Lemma shown_iff_first_ref (gid : string) (a : App) :
  shown_group gid (_refresh_groups a) = None
  <-> first_ref (dom a) gid (scanned_clients a) = None.
Proof.
  rewrite GroupFacts.shown_group_first_ref.
  destruct (first_ref (dom a) gid (scanned_clients a)); simpl; split;
    intros H; congruence.
Qed.

Lemma collect_groups_ext (d d' : Domain) (cs : list cref) :
  (forall c, group (cheap d' c) = group (cheap d c)) ->
  (forall g, group_id (gheap d' g) = group_id (gheap d g)) ->
  forall groups, collect_groups d' cs groups = collect_groups d cs groups.
Proof.
  intros Hc Hg. induction cs as [|c cs IH]; intros groups; simpl; [reflexivity|].
  rewrite Hc. destruct (group (cheap d c)) as [g|]; [|apply IH].
  rewrite Hg. destruct (negb _); apply IH.
Qed.

Lemma group_data_set_volume (g g' : gref) (v : Z) (d : Domain) :
  group_data (set_volume g v d) g'
  = if g' =? g then with_volume v (group_data d g) else group_data d g'.
Proof.
  unfold group_data, set_volume. simpl.
  destruct (Nat.eqb_spec g' g) as [->|Hne].
  - rewrite upd_same. reflexivity.
  - rewrite upd_other by assumption. reflexivity.
Qed.

(** X5.  Setting the volume of the group shown under an id and refreshing
    changes that one entry's volume and nothing else in the group snapshot;
    for an id that is not shown the snapshot is as before. *)
Theorem set_group_volume_shown (env : Env) (gid : string) (v : Z) (a : App) :
  groups_panel (_refresh_groups (_set_group_volume env gid v a))
  = map (fun e => if String.eqb (gd_id e) gid then with_volume v e else e)
        (groups_panel (_refresh_groups a)).
Proof.
  rewrite set_group_volume_scan, set_volume_loop_first_ref.
  rewrite (refresh_groups_panel a).
  destruct (collect_groups_spec (dom a) (scanned_clients a)) as [_ Hv].
  rewrite Forall_forall in Hv.
  destruct (first_ref (dom a) gid (scanned_clients a)) as [g|] eqn:Hfirst.
  - rewrite refresh_groups_panel.
    change (scanned_clients (_log_event env _ "info"
              (set_dom (set_volume g v (dom a)) a)))
      with (scanned_clients a).
    change (dom (_log_event env _ "info" (set_dom (set_volume g v (dom a)) a)))
      with (set_volume g v (dom a)).
    rewrite (collect_groups_ext (dom a) (set_volume g v (dom a)));
      [| reflexivity
       | intros g0; unfold set_volume; simpl;
         destruct (Nat.eq_dec g0 g) as [->|Hne];
         [rewrite upd_same | rewrite upd_other by assumption]; reflexivity].
    rewrite map_map. apply map_ext_in. intros p Hp.
    specialize (Hv p Hp). simpl in Hv.
    pose proof (first_ref_Some _ _ _ _ Hv) as [Hid _].
    pose proof (first_ref_Some _ _ _ _ Hfirst) as [Hgid _].
    rewrite group_data_set_volume.
    change (gd_id (group_data (dom a) (snd p)))
      with (group_id (gheap (dom a) (snd p))).
    rewrite Hid.
    destruct (String.eqb_spec (fst p) gid) as [He|Hne].
    + rewrite He, Hfirst in Hv. injection Hv as <-.
      now rewrite Nat.eqb_refl.
    + destruct (Nat.eqb_spec (snd p) g) as [Hsame|_]; [|reflexivity].
      elim Hne. rewrite <- Hid, Hsame. exact Hgid.
  - rewrite refresh_groups_panel, map_map. symmetry.
    rewrite <- (map_id (map _ _)) at 1. rewrite map_map.
    apply map_ext_in. intros p Hp.
    specialize (Hv p Hp). simpl in Hv.
    pose proof (first_ref_Some _ _ _ _ Hv) as [Hid _].
    change (gd_id (group_data (dom a) (snd p)))
      with (group_id (gheap (dom a) (snd p))).
    rewrite Hid.
    destruct (String.eqb_spec (fst p) gid) as [He|_]; [|reflexivity].
    rewrite He, Hfirst in Hv. discriminate.
Qed.

(** X6.  [_stop_group] and [_set_group_volume] write to the event log exactly
    when the id is one the group snapshot would show, one "info" entry each;
    for any other id, and without a server, they return the state as it was.
    What [group.stop] raises never shows. *)
Theorem group_action_logs_iff_shown (env : Env) (gid : string) (v : Z)
    (raised : option Exception) (a : App) :
  (shown_group gid (_refresh_groups a) = None ->
     _stop_group env gid raised a = a /\ _set_group_volume env gid v a = a)
  /\ (shown_group gid (_refresh_groups a) <> None ->
        _stop_group env gid raised a
        = _log_event env ("Stop requested for group " +++ gid) "info" a
        /\ event_log (_set_group_volume env gid v a)
           = event_log
               (_log_event env
                  ("Volume set to " +++ PyStr.str_of_int v +++ " for group "
                   +++ gid) "info" a)).
Proof.
  rewrite shown_iff_first_ref, stop_group_scan, set_group_volume_scan,
    stop_group_loop_first_ref, set_volume_loop_first_ref.
  destruct (first_ref (dom a) gid (scanned_clients a)) as [g|]; split;
    intros H; try discriminate; try (now elim H); split; reflexivity.
Qed.

End GroupActionFacts.

(** ** Sessions *)

Module SessionFacts.
Import Collaborator Widgets SendspinGUIApp Obs Actions Machine
       RefreshClientsFacts RefreshGroupsFacts StopFacts.

(** *** Keeping the books *)

Lemma keeps_books_same (a a' : App) :
  _event_unsubscribers a' = _event_unsubscribers a ->
  (forall c, client_listeners (cheap (dom a') c)
             = client_listeners (cheap (dom a) c)) ->
  (forall g, group_listeners (gheap (dom a') g)
             = group_listeners (gheap (dom a) g)) ->
  option_map server_listeners (_server a')
  = option_map server_listeners (_server a) ->
  keeps_books a a'.
Proof.
  intros Hu Hc Hg Hs. unfold keeps_books. rewrite Hu.
  split; [apply incl_refl|]. split; [|split].
  - intros c l Hl. left. now rewrite <- Hc.
  - intros g l Hl. left. now rewrite <- Hg.
  - intros srv' l Hsrv' Hl. left. rewrite Hsrv' in Hs. simpl in Hs.
    destruct (_server a) as [srv|]; [|discriminate].
    exists srv. split; [reflexivity|]. simpl in Hs. injection Hs as Hs.
    now rewrite <- Hs.
Qed.

Lemma keeps_books_refl (a : App) : keeps_books a a.
Proof. apply keeps_books_same; reflexivity. Qed.

Lemma keeps_books_trans (a1 a2 a3 : App) :
  keeps_books a1 a2 -> keeps_books a2 a3 -> keeps_books a1 a3.
Proof.
  intros [Hu [Hc [Hg Hs]]] [Hu' [Hc' [Hg' Hs']]]. split; [|split; [|split]].
  - eapply incl_tran; eassumption.
  - intros c l Hl. destruct (Hc' c l Hl) as [H|H]; [|now right].
    destruct (Hc c l H) as [H0|H0]; [now left | right; now apply Hu'].
  - intros g l Hl. destruct (Hg' g l Hl) as [H|H]; [|now right].
    destruct (Hg g l H) as [H0|H0]; [now left | right; now apply Hu'].
  - intros srv3 l Hsrv Hl. destruct (Hs' srv3 l Hsrv Hl) as [[srv2 [H2 Hl2]]|H];
      [|now right].
    destruct (Hs srv2 l H2 Hl2) as [H0|H0]; [now left | right; now apply Hu'].
Qed.


(** *** Tame turns *)

Lemma tame_refl (a : App) : tame a a.
Proof.
  split; [reflexivity|]. split; [reflexivity|]. split; [apply keeps_books_refl|].
  split; [exists []; now rewrite app_nil_r|].
  intros _. split; [reflexivity|]. split; now right.
Qed.

Lemma tame_trans (a1 a2 a3 : App) : tame a1 a2 -> tame a2 a3 -> tame a1 a3.
Proof.
  intros [Hs [Ht [Hk [[s1 Hl] Hn]]]] [Hs' [Ht' [Hk' [[s2 Hl'] Hn']]]].
  split; [congruence|]. split; [congruence|].
  split; [eapply keeps_books_trans; eassumption|].
  split; [exists (s1 ++ s2); rewrite Hl', Hl; now rewrite app_assoc|].
  intros Hnone. destruct (Hn Hnone) as [Hu [Hcp Hgp]].
  rewrite <- Hs in Hnone. destruct (Hn' Hnone) as [Hu' [Hcp' Hgp']].
  split; [congruence|]. split.
  - destruct Hcp' as [H|H]; [now left|]. rewrite H. exact Hcp.
  - destruct Hgp' as [H|H]; [now left|]. rewrite H. exact Hgp.
Qed.

Lemma tame_log_event (env : Env) (msg level : string) (a : App) :
  tame a (_log_event env msg level a).
Proof.
  split; [reflexivity|]. split; [reflexivity|].
  split; [apply keeps_books_same; reflexivity|].
  split; [eexists; reflexivity|].
  intros _. split; [reflexivity|]. split; now right.
Qed.

(** A change of the domain that leaves every listener list alone. *)
Lemma tame_set_dom (d' : Domain) (a : App) :
  (forall c, client_listeners (cheap d' c) = client_listeners (cheap (dom a) c)) ->
  (forall g, group_listeners (gheap d' g) = group_listeners (gheap (dom a) g)) ->
  tame a (set_dom d' a).
Proof.
  intros Hc Hg. split; [reflexivity|]. split; [reflexivity|].
  split; [apply keeps_books_same; try reflexivity; assumption|].
  split; [exists []; simpl; now rewrite app_nil_r|].
  intros _. split; [reflexivity|]. split; now right.
Qed.

Lemma tame_refresh_groups (a : App) : tame a (_refresh_groups a).
Proof.
  destruct (refresh_groups_frame a) as [Hs [Hd [Hu [Hc Hl]]]].
  split; [exact Hs|]. split.
  { unfold _refresh_groups. destruct (_server a); reflexivity. }
  split.
  { apply keeps_books_same; [exact Hu | | | now rewrite Hs];
      intros x; now rewrite Hd. }
  split; [exists []; now rewrite app_nil_r|].
  intros Hnone. split; [exact Hu|]. split; [right; exact Hc|].
  left. unfold _refresh_groups. now rewrite Hnone.
Qed.

Lemma refresh_loop_books (cs : list cref) :
  forall a acc,
    keeps_books a (fst (refresh_clients_loop cs a acc))
    /\ server_state (fst (refresh_clients_loop cs a acc)) = server_state a.
Proof.
  induction cs as [|c cs IH]; intros a acc.
  - split; [apply keeps_books_refl | reflexivity].
  - cbn [refresh_clients_loop client_add_event_listener].
    match goal with
    | |- context [refresh_clients_loop cs ?x ?y] =>
        destruct (IH x y) as [Hk Hst]; set (a1 := x) in *
    end.
    split; [|exact Hst].
    eapply keeps_books_trans; [|exact Hk].
    unfold a1. split; [|split; [|split]]; simpl.
    + intros u Hu. apply in_or_app. now left.
    + intros c' l Hl. destruct (Nat.eq_dec c' c) as [->|Hne].
      * rewrite upd_same in Hl. simpl in Hl. apply in_app_or in Hl.
        destruct Hl as [Hl|[<-|[]]]; [now left|].
        right. apply in_or_app. right. now left.
      * rewrite upd_other in Hl by assumption. now left.
    + intros g l Hl. now left.
    + intros srv' l Hsrv Hl. left. now exists srv'.
Qed.

Lemma tame_refresh_clients (a : App) : tame a (_refresh_clients a).
Proof.
  destruct (refresh_clients_frame a) as [Hs [_ [Hg Hl]]].
  split; [exact Hs|].
  unfold _refresh_clients in *. destruct (_server a) as [srv|] eqn:Hsrv.
  - destruct (refresh_loop_books (server_clients srv) a []) as [Hk Hst].
    destruct (refresh_clients_loop (server_clients srv) a []) as [a1 data].
    simpl in *. split; [exact Hst|]. split.
    { destruct Hk as [H1 [H2 [H3 H4]]]. split; [|split; [|split]]; assumption. }
    split; [exists []; now rewrite app_nil_r|].
    intros H; discriminate H.
  - simpl. split; [reflexivity|].
    split; [apply keeps_books_same; simpl; try reflexivity; now rewrite Hsrv|].
    split; [exists []; now rewrite app_nil_r|].
    intros _. split; [reflexivity|]. split; [now left | now right].
Qed.

(** *** The collaborator's moves leave listeners alone *)

Lemma ungroup_listeners (c : cref) (d : Domain) :
  (forall c', client_listeners (cheap (ungroup c d) c')
              = client_listeners (cheap d c'))
  /\ (forall g', group_listeners (gheap (ungroup c d) g')
                 = group_listeners (gheap d g')).
Proof.
  unfold ungroup. destruct (group (cheap d c)) as [g0|]; [|split; reflexivity].
  simpl. split.
  - intros c'. destruct (Nat.eq_dec c' c) as [->|Hne];
      [rewrite upd_same | rewrite upd_other by assumption]; reflexivity.
  - intros g'. destruct (Nat.eq_dec g' g0) as [->|Hne];
      [rewrite upd_same | rewrite upd_other by assumption]; reflexivity.
Qed.

Lemma add_client_listeners (g : gref) (c : cref) (d : Domain) :
  (forall c', client_listeners (cheap (add_client g c d) c')
              = client_listeners (cheap d c'))
  /\ (forall g', group_listeners (gheap (add_client g c d) g')
                 = group_listeners (gheap d g')).
Proof.
  destruct (ungroup_listeners c d) as [Hc Hg]. unfold add_client. simpl. split.
  - intros c'. destruct (Nat.eq_dec c' c) as [->|Hne];
      [rewrite upd_same | rewrite upd_other by assumption]; simpl; apply Hc.
  - intros g'. destruct (Nat.eq_dec g' g) as [->|Hne];
      [rewrite upd_same | rewrite upd_other by assumption]; simpl; apply Hg.
Qed.

Lemma set_volume_listeners (g : gref) (v : Z) (d : Domain) :
  (forall c', client_listeners (cheap (set_volume g v d) c')
              = client_listeners (cheap d c'))
  /\ (forall g', group_listeners (gheap (set_volume g v d) g')
                 = group_listeners (gheap d g')).
Proof.
  unfold set_volume. simpl. split; [reflexivity|].
  intros g'. destruct (Nat.eq_dec g' g) as [->|Hne];
    [rewrite upd_same | rewrite upd_other by assumption]; reflexivity.
Qed.

Lemma tame_create_loop (g : gref) (ids : list string) :
  forall a, tame a (fst (create_loop g ids a)).
Proof.
  induction ids as [|cid ids IH]; intros a; cbn [create_loop].
  - apply tame_refl.
  - destruct (_server a) as [srv|]; [|apply tame_refl].
    destruct (get_client (dom a) srv cid) as [c|]; [|apply IH].
    eapply tame_trans; [|apply IH].
    destruct (add_client_listeners g c (dom a)) as [Hc Hg].
    now apply tame_set_dom.
Qed.

(** [_create] takes a callable for the new group, so it is tame only with a
    server, which is when [_create_group] runs it. *)
Lemma tame_create (env : Env) (ids : list string) (gname : string) (a : App)
    (srv : SendspinServer) :
  _server a = Some srv -> tame a (fst (_create env ids gname a)).
Proof.
  intros Hsrv. unfold _create. cbn [new_group group_add_event_listener].
  match goal with
  | |- context [create_loop ?g ?l ?x] =>
      set (a1 := x); eapply (tame_trans a a1); [|apply tame_create_loop]
  end.
  unfold a1. split; [reflexivity|]. split; [reflexivity|]. split.
  - split; [|split; [|split]]; simpl.
    + intros u Hu. apply in_or_app. now left.
    + intros c l Hl. now left.
    + intros g l Hl. destruct (Nat.eq_dec g (next_gref (dom a))) as [->|Hne].
      * rewrite !upd_same in Hl. simpl in Hl. destruct Hl as [<-|[]].
        right. apply in_or_app. right. now left.
      * rewrite !upd_other in Hl by assumption. now left.
    + intros srv' l Hs Hl. left. now exists srv'.
  - split; [exists []; simpl; now rewrite app_nil_r|].
    intros Hnone. congruence.
Qed.

Lemma tame_create_group (env : Env) (ids : list string) (gname : string)
    (a : App) : tame a (_create_group env ids gname a).
Proof.
  unfold _create_group. destruct (_server a) as [srv|] eqn:Hsrv;
    [|apply tame_refl].
  destruct ids as [|cid ids]; [apply tame_refl|].
  unfold run_coroutine.
  pose proof (tame_create env (cid :: ids) gname a srv Hsrv) as Hc.
  destruct (_create env (cid :: ids) gname a) as [a1 error]. simpl in Hc.
  eapply tame_trans; [exact Hc|].
  unfold create_on_complete. destruct error as [e|].
  - apply tame_log_event.
  - eapply tame_trans; [apply tame_log_event|].
    eapply tame_trans; [apply tame_refresh_clients | apply tame_refresh_groups].
Qed.

Lemma tame_remove (env : Env) (gid cid : string) (a : App) :
  tame a (_remove_client_from_group env gid cid a).
Proof.
  unfold _remove_client_from_group. destruct (_server a) as [srv|];
    [|apply tame_refl].
  destruct (get_client (dom a) srv cid) as [c|]; [|apply tame_refl].
  destruct (group (cheap (dom a) c)) as [g|]; [|apply tame_refl].
  unfold run_coroutine, _remove, remove_on_complete.
  destruct (ungroup_listeners c (dom a)) as [Hc Hg].
  eapply tame_trans; [apply (tame_set_dom (ungroup c (dom a))); assumption|].
  eapply tame_trans; [apply tame_log_event|].
  eapply tame_trans; [apply tame_refresh_clients | apply tame_refresh_groups].
Qed.

Lemma tame_handle_server_event (env : Env) (ev : SendspinEvent) (a : App) :
  tame a (_handle_server_event env ev a).
Proof.
  destruct ev; simpl; try apply tame_log_event;
    (eapply tame_trans; [apply tame_log_event | apply tame_refresh_clients]).
Qed.

Lemma tame_handle_group_event (env : Env) (g : gref) (ev : GroupEvent)
    (a : App) : tame a (handle_group_event env g ev a).
Proof.
  unfold handle_group_event.
  eapply tame_trans; [|apply tame_refresh_groups].
  destruct ev; apply tame_log_event.
Qed.

Lemma disconnect_client_inert (cid : string) (raised : option Exception)
    (a : App) : _disconnect_client cid raised a = a.
Proof.
  unfold _disconnect_client. destruct (_server a) as [srv|]; [|reflexivity].
  destruct (get_client (dom a) srv cid); reflexivity.
Qed.

Lemma tame_stop_group (env : Env) (gid : string) (raised : option Exception)
    (a : App) : tame a (_stop_group env gid raised a).
Proof.
  rewrite GroupActionFacts.stop_group_scan,
    GroupActionFacts.stop_group_loop_first_ref.
  destruct (first_ref _ _ _); [apply tame_log_event | apply tame_refl].
Qed.

Lemma tame_set_group_volume (env : Env) (gid : string) (v : Z) (a : App) :
  tame a (_set_group_volume env gid v a).
Proof.
  rewrite GroupActionFacts.set_group_volume_scan,
    GroupActionFacts.set_volume_loop_first_ref.
  destruct (first_ref _ _ _) as [g|]; [|apply tame_refl].
  destruct (set_volume_listeners g v (dom a)) as [Hc Hg].
  eapply tame_trans; [apply (tame_set_dom (set_volume g v (dom a))); assumption|].
  apply tame_log_event.
Qed.

Lemma tame_press_stream_file (env : Env) (w : StreamPanel.Entries) (a : App) :
  tame a (press_stream_file env w a).
Proof.
  unfold press_stream_file. destruct (StreamPanel._stream_file env w);
    [apply tame_log_event | apply tame_refl].
Qed.

(** Every turn but a start and a stop of the server is tame. *)
Lemma perform_tame (env : Env) (act : Action) (a : App) :
  match act with
  | DoStartServer _ _ _ _ _ | DoStopServer _ => True
  | _ => tame a (perform env act a)
  end.
Proof.
  destruct act; simpl; trivial.
  - apply tame_handle_server_event.
  - apply tame_log_event.
  - apply tame_handle_group_event.
  - apply tame_create_group.
  - rewrite disconnect_client_inert. apply tame_refl.
  - apply tame_log_event.
  - apply tame_stop_group.
  - apply tame_set_group_volume.
  - apply tame_remove.
  - apply tame_press_stream_file.
Qed.

(** *** What a stop detaches *)

Lemma filter_all {A : Type} (f : A -> bool) (l : list A) :
  (forall x, In x l -> f x = true) -> filter f l = l.
Proof.
  induction l as [|x l IH]; intros H; simpl; [reflexivity|].
  rewrite (H x (or_introl eq_refl)). f_equal. apply IH.
  intros y Hy. apply H. now right.
Qed.

Lemma filter_twice {A : Type} (f g : A -> bool) (l : list A) :
  filter f (filter g l) = filter (fun x => g x && f x) l.
Proof.
  induction l as [|x l IH]; simpl; [reflexivity|].
  destruct (g x); simpl; [destruct (f x)|]; now rewrite IH.
Qed.

Lemma call_unsub_client_listeners (u : Unsub) (a : App) (c : cref) :
  client_listeners (cheap (dom (call_unsub u a)) c)
  = filter (fun l => negb (Entity_eqb (u_entity u) (EClient c)
                           && (u_token u =? l_token l)))
           (client_listeners (cheap (dom a) c)).
Proof.
  destruct u as [[|c0|g0] t]; unfold call_unsub; simpl;
    try (symmetry; apply filter_all; reflexivity).
  destruct (Nat.eqb_spec c0 c) as [->|Hne].
  - rewrite upd_same. simpl. unfold detach. apply filter_ext.
    intros l. now rewrite Nat.eqb_sym.
  - rewrite upd_other by congruence. symmetry. apply filter_all. reflexivity.
Qed.

Lemma call_unsub_group_listeners (u : Unsub) (a : App) (g : gref) :
  group_listeners (gheap (dom (call_unsub u a)) g)
  = filter (fun l => negb (Entity_eqb (u_entity u) (EGroup g)
                           && (u_token u =? l_token l)))
           (group_listeners (gheap (dom a) g)).
Proof.
  destruct u as [[|c0|g0] t]; unfold call_unsub; simpl;
    try (symmetry; apply filter_all; reflexivity).
  destruct (Nat.eqb_spec g0 g) as [->|Hne].
  - rewrite upd_same. simpl. unfold detach. apply filter_ext.
    intros l. now rewrite Nat.eqb_sym.
  - rewrite upd_other by congruence. symmetry. apply filter_all. reflexivity.
Qed.

Lemma unsubscribe_each_client_listeners (us : list Unsub) (c : cref) :
  forall a,
    client_listeners (cheap (dom (unsubscribe_each us a)) c)
    = filter (fun l => negb (held (EClient c) (l_token l) us))
             (client_listeners (cheap (dom a) c)).
Proof.
  induction us as [|u us IH]; intros a.
  - simpl. symmetry. apply filter_all. reflexivity.
  - change (unsubscribe_each (u :: us) a)
      with (unsubscribe_each us (call_unsub u a)).
    rewrite IH, call_unsub_client_listeners, filter_twice.
    apply filter_ext. intros l. unfold held. simpl.
    now rewrite negb_orb.
Qed.

Lemma unsubscribe_each_group_listeners (us : list Unsub) (g : gref) :
  forall a,
    group_listeners (gheap (dom (unsubscribe_each us a)) g)
    = filter (fun l => negb (held (EGroup g) (l_token l) us))
             (group_listeners (gheap (dom a) g)).
Proof.
  induction us as [|u us IH]; intros a.
  - simpl. symmetry. apply filter_all. reflexivity.
  - change (unsubscribe_each (u :: us) a)
      with (unsubscribe_each us (call_unsub u a)).
    rewrite IH, call_unsub_group_listeners, filter_twice.
    apply filter_ext. intros l. unfold held. simpl.
    now rewrite negb_orb.
Qed.

Lemma stop_server_dom (env : Env) (close : option Exception) (a : App)
    (srv : SendspinServer) :
  _server a = Some srv ->
  dom (_stop_server env close a)
  = dom (unsubscribe_each (_event_unsubscribers a) a).
Proof.
  intros Hsrv. unfold _stop_server, run_coroutine, _stop. rewrite Hsrv. simpl.
  rewrite Hsrv. unfold stop_on_complete.
  fold (unsubscribe_each
          (_event_unsubscribers (_log_event env "Stopping server..." "info" a))
          (_log_event env "Stopping server..." "info" a)).
  assert (Hdom : forall us x msg level,
            dom (unsubscribe_each us (_log_event env msg level x))
            = dom (unsubscribe_each us x)).
  { induction us as [|u us IH]; intros x msg level; [reflexivity|].
    change (unsubscribe_each (u :: us) ?y)
      with (unsubscribe_each us (call_unsub u y)).
    assert (Hcu : call_unsub u (_log_event env msg level x)
                  = _log_event env msg level (call_unsub u x))
      by (destruct u as [[|c|g] t]; reflexivity).
    rewrite Hcu. apply IH. }
  destruct close; simpl; apply Hdom.
Qed.


(** X7.  Stopping the server detaches from every client and every group
    exactly the listeners whose callable is in [_event_unsubscribers], and
    leaves the other listeners, in their order. *)
Theorem stop_server_detaches_held (env : Env) (close : option Exception)
    (a : App) (srv : SendspinServer) (Hsrv : _server a = Some srv) :
  (forall c,
     client_listeners (cheap (dom (_stop_server env close a)) c)
     = filter (fun l => negb (held (EClient c) (l_token l)
                                   (_event_unsubscribers a)))
              (client_listeners (cheap (dom a) c)))
  /\ (forall g,
        group_listeners (gheap (dom (_stop_server env close a)) g)
        = filter (fun l => negb (held (EGroup g) (l_token l)
                                      (_event_unsubscribers a)))
                 (group_listeners (gheap (dom a) g))).
Proof.
  rewrite (stop_server_dom env close a srv Hsrv). split.
  - intros c. apply unsubscribe_each_client_listeners.
  - intros g. apply unsubscribe_each_group_listeners.
Qed.

Lemma stop_server_detaches_held_witness :
  _server (_refresh_clients (_refresh_clients Session.running_one))
  = Some (mkServer "srv" "Test" [0] [])
  /\ client_listeners
       (cheap (dom (_stop_server Session.env0 None
                      (_refresh_clients (_refresh_clients Session.running_one))))
              0)
     = [].
Proof.
  split; [reflexivity|].
  destruct (stop_server_detaches_held Session.env0 None
              (_refresh_clients (_refresh_clients Session.running_one))
              (mkServer "srv" "Test" [0] []) eq_refl) as [Hc _].
  rewrite Hc. reflexivity.
Defined.




(** *** Start and stop *)

Lemma start_server_books (env : Env) (sid sname : string) (port : Z)
    (mdns : bool) (listen : option Exception) (a : App) :
  _server (_start_server env sid sname port mdns listen a)
  = Some (mkServer sid sname []
            [mkListener (next_token (dom a)) OnServerEvent])
  /\ _event_unsubscribers (_start_server env sid sname port mdns listen a)
     = _event_unsubscribers a ++ [mkUnsub EServer (next_token (dom a))]
  /\ keeps_books a (_start_server env sid sname port mdns listen a)
  /\ exists suffix,
       event_log (_start_server env sid sname port mdns listen a)
       = event_log a ++ suffix.
Proof.
  split; [destruct listen; reflexivity|].
  split; [destruct listen; reflexivity|]. split.
  - split; [|split; [|split]].
    + destruct listen; simpl; intros u Hu; apply in_or_app; now left.
    + intros c l Hl. left. destruct listen; exact Hl.
    + intros g l Hl. left. destruct listen; exact Hl.
    + intros srv' l Hsrv Hl. right.
      assert (Hs : srv' = mkServer sid sname []
                            [mkListener (next_token (dom a)) OnServerEvent])
        by (destruct listen; simpl in Hsrv; congruence).
      subst srv'. simpl in Hl. destruct Hl as [<-|[]].
      destruct listen; simpl; apply in_or_app; right; now left.
  - destruct listen; simpl; rewrite <- app_assoc; eexists; reflexivity.
Qed.

Lemma stop_server_fields (env : Env) (close : option Exception) (a : App)
    (srv : SendspinServer) :
  _server a = Some srv ->
  _server (_stop_server env close a) = None
  /\ _event_unsubscribers (_stop_server env close a) = []
  /\ clients_panel (_stop_server env close a) = []
  /\ groups_panel (_stop_server env close a) = []
  /\ server_state (_stop_server env close a) = false.
Proof.
  intros Hsrv. unfold _stop_server, run_coroutine, _stop. rewrite Hsrv. simpl.
  rewrite Hsrv. destruct close; repeat split.
Qed.

Lemma unsubscribe_each_log (us : list Unsub) :
  forall a, event_log (unsubscribe_each us a) = event_log a.
Proof.
  induction us as [|u us IH]; intros a; [reflexivity|].
  change (unsubscribe_each (u :: us) a)
    with (unsubscribe_each us (call_unsub u a)).
  rewrite IH. destruct u as [[|c|g] t]; reflexivity.
Qed.

Lemma stop_server_log (env : Env) (close : option Exception) (a : App) :
  exists suffix, event_log (_stop_server env close a) = event_log a ++ suffix.
Proof.
  unfold _stop_server. destruct (_server a) as [srv|] eqn:Hsrv.
  - unfold run_coroutine, _stop. simpl. rewrite Hsrv. unfold stop_on_complete.
    fold (unsubscribe_each
            (_event_unsubscribers (_log_event env "Stopping server..." "info" a))
            (_log_event env "Stopping server..." "info" a)).
    destruct close; simpl; rewrite unsubscribe_each_log; simpl;
      rewrite <- app_assoc; eexists; reflexivity.
  - exists []. now rewrite app_nil_r.
Qed.







(** *** A session to point at *)







(** *** The event log and the handlers *)

(** X10.  No turn of the main loop rewrites the event log: whatever is
    pressed or delivered, the old log is a prefix of the new one. *)
Theorem log_append_only (env : Env) (act : Action) (a : App) :
  exists suffix, event_log (perform env act a) = event_log a ++ suffix.
Proof.
  pose proof (perform_tame env act a) as Ht.
  destruct act; try exact (proj1 (proj2 (proj2 (proj2 Ht)))).
  - simpl.
    destruct (start_server_books env server_id0 server_name0 port enable_mdns
                listen a) as [_ [_ [_ Hl]]].
    exact Hl.
  - apply stop_server_log.
Qed.

Lemma log_event_length (env : Env) (msg level : string) (a : App) :
  List.length (event_log (_log_event env msg level a))
  = S (List.length (event_log a)).
Proof. simpl. rewrite length_app. simpl. lia. Qed.

(** X11.  Each delivered event writes one log entry.  A server event never
    touches the group snapshot; a group event never touches the client
    snapshot, the domain or the list of unsubscribe callables; a client event
    only writes its log entry. *)
Theorem event_handlers_scope (env : Env) (a : App) :
  (forall ev,
     groups_panel (_handle_server_event env ev a) = groups_panel a
     /\ List.length (event_log (_handle_server_event env ev a))
        = S (List.length (event_log a)))
  /\ (forall g ev,
        clients_panel (handle_group_event env g ev a) = clients_panel a
        /\ dom (handle_group_event env g ev a) = dom a
        /\ _event_unsubscribers (handle_group_event env g ev a)
           = _event_unsubscribers a
        /\ List.length (event_log (handle_group_event env g ev a))
           = S (List.length (event_log a)))
  /\ (forall c type_name,
        handle_client_event env c type_name a
        = set_event_log (event_log (handle_client_event env c type_name a)) a
        /\ List.length (event_log (handle_client_event env c type_name a))
           = S (List.length (event_log a))).
Proof.
  split; [|split].
  - intros ev. destruct ev as [cid|cid|tn]; cbn [_handle_server_event];
      try (split; [reflexivity | apply log_event_length]);
      match goal with
      | |- context [_refresh_clients ?x] =>
          destruct (refresh_clients_frame x) as [_ [_ [Hg Hl]]];
          rewrite Hg, Hl; split; [reflexivity | apply log_event_length]
      end.
  - intros g ev. unfold handle_group_event.
    match goal with
    | |- context [_refresh_groups ?x] =>
        destruct (refresh_groups_frame x) as [_ [Hd [Hu [Hc Hl]]]];
        rewrite Hd, Hu, Hc, Hl
    end.
    destruct ev; (split; [reflexivity|]); (split; [reflexivity|]);
      (split; [reflexivity | apply log_event_length]).
  - intros c tn. split; [reflexivity | apply log_event_length].
Qed.

(** X12.  A start that fails still leaves the new server object behind, with
    the controller's listener on it and the callable for it held, while the
    toggle reads "stopped"; the stop that follows is therefore no no-op and
    lets go of it. *)
Theorem failed_start_keeps_server (env : Env) (sid sname : string) (port : Z)
    (mdns : bool) (e : Exception) (close : option Exception) (a : App) :
  _server (_start_server env sid sname port mdns (Some e) a)
  = Some (mkServer sid sname []
            [mkListener (next_token (dom a)) OnServerEvent])
  /\ server_state (_start_server env sid sname port mdns (Some e) a) = false
  /\ _event_unsubscribers (_start_server env sid sname port mdns (Some e) a)
     = _event_unsubscribers a ++ [mkUnsub EServer (next_token (dom a))]
  /\ _server (_stop_server env close
                (_start_server env sid sname port mdns (Some e) a)) = None
  /\ _event_unsubscribers
       (_stop_server env close
          (_start_server env sid sname port mdns (Some e) a)) = []
  /\ unsub_calls
       (dom (_stop_server env close
               (_start_server env sid sname port mdns (Some e) a)))
     = unsub_calls (dom a) ++ _event_unsubscribers a
       ++ [mkUnsub EServer (next_token (dom a))].
Proof.
  destruct (start_server_books env sid sname port mdns (Some e) a)
    as [Hs [Hu _]].
  destruct (stop_server_fields env close _ _ Hs) as [Hnone [Hempty _]].
  split; [exact Hs|]. split; [reflexivity|]. split; [exact Hu|].
  split; [exact Hnone|]. split; [exact Hempty|].
  rewrite (stop_server_dom env close _ _ Hs), unsubscribe_each_calls, Hu.
  reflexivity.
Qed.

End SessionFacts.

(** ** Creating a group from any list of ids *)

Module CreateGroupFacts.
Import Collaborator Widgets SendspinGUIApp Obs Actions Machine
       RefreshClientsFacts RefreshGroupsFacts GroupFacts.

Lemma get_client_is_connected (d : Domain) (srv : SendspinServer) (cid : string) :
  match get_client d srv cid with
  | Some c => is_connected d srv cid = true /\ client_id (cheap d c) = cid
  | None => is_connected d srv cid = false
  end.
Proof.
  unfold get_client, is_connected.
  induction (server_clients srv) as [|c l IH]; simpl; [reflexivity|].
  destruct (String.eqb_spec (client_id (cheap d c)) cid) as [He|Hne]; simpl.
  - split; [reflexivity | exact He].
  - exact IH.
Qed.

Lemma resolved_ids_any (d : Domain) (srv : SendspinServer) (ids : list string) :
  map (fun c => client_id (cheap d c)) (resolved d srv ids)
  = filter (is_connected d srv) ids.
Proof.
  induction ids as [|cid ids IH]; [reflexivity|].
  unfold resolved in *. simpl.
  pose proof (get_client_is_connected d srv cid) as H.
  destruct (get_client d srv cid) as [c|].
  - destruct H as [Hc Hid]. rewrite Hc. simpl. now rewrite Hid, IH.
  - rewrite H. exact IH.
Qed.

Lemma resolved_NoDup_any (d : Domain) (srv : SendspinServer) (ids : list string) :
  NoDup ids -> NoDup (resolved d srv ids).
Proof.
  intros Hnd. apply (NoDup_map_inv (fun c => client_id (cheap d c))).
  rewrite resolved_ids_any. now apply NoDup_filter.
Qed.

Lemma created_Grouped_any (env : Env) (d d1 : Domain) (srv : SendspinServer)
    (client_ids : list string) (group_name : string) (ls : list Listener) :
  cheap d1 = cheap d ->
  (forall g',
     gheap d1 g'
     = upd (gheap d) (next_gref d)
         (mkGroup (new_group_id env (next_gref d)) group_name
            (new_group_state env) (new_group_volume env)
            (new_group_muted env) [] ls) g') ->
  NoDup client_ids ->
  new_id_unused env d srv ->
  groups_allocated d srv ->
  Grouped srv (next_gref d) (new_group_id env (next_gref d))
    (resolved d srv client_ids)
    (add_each (next_gref d) (resolved d1 srv client_ids) d1).
Proof.
  intros Hc Hg Hnd Hunused Halloc.
  assert (Hres : resolved d1 srv client_ids = resolved d srv client_ids)
    by (apply resolved_ext; intros c; now rewrite Hc).
  rewrite Hres. constructor.
  - now apply resolved_NoDup_any.
  - apply resolved_connected.
  - rewrite add_each_clients.
    + rewrite Hg, upd_same. reflexivity.
    + now apply resolved_NoDup_any.
    + intros c _. rewrite Hg, upd_same. simpl. tauto.
  - rewrite add_each_group_id, Hg, upd_same. reflexivity.
  - intros c Hm. now apply add_each_group_in.
  - intros c g' Hin Hm Hcg. rewrite add_each_group_out in Hcg by assumption.
    rewrite Hc in Hcg.
    assert (Href : In g' (referenced_groups d (server_clients srv)))
      by (apply referenced_groups_In; now exists c).
    unfold groups_allocated, new_id_unused in *.
    rewrite Forall_forall in Halloc, Hunused.
    specialize (Halloc g' Href).
    rewrite add_each_group_id, Hg, upd_other by lia.
    apply Hunused. unfold referenced_ids. apply in_map_iff. now exists g'.
Qed.

Lemma create_group_unfold_msg (env : Env) (a : App) (srv : SendspinServer)
    (client_ids : list string) (group_name : string) :
  _server a = Some srv -> client_ids <> [] ->
  exists a1,
    _server a1 = Some srv
    /\ event_log a1 = event_log a
    /\ cheap (dom a1) = cheap (dom a)
    /\ (forall g',
          gheap (dom a1) g'
          = upd (gheap (dom a)) (next_gref (dom a))
              (mkGroup (new_group_id env (next_gref (dom a))) group_name
                 (new_group_state env) (new_group_volume env)
                 (new_group_muted env) []
                 [mkListener (next_token (dom a)) OnGroupEvent]) g')
    /\ _create_group env client_ids group_name a
       = _refresh_groups (_refresh_clients (_log_event env
           ("Created group '" +++ group_name +++ "' with "
            +++ PyStr.str_of_len (List.length client_ids) +++ " clients")
           "success"
           (set_dom (add_each (next_gref (dom a))
                       (resolved (dom a1) srv client_ids) (dom a1)) a1))).
Proof.
  intros Hsrv Hne. destruct client_ids as [|cid rest]; [now elim Hne|].
  unfold _create_group. rewrite Hsrv. unfold run_coroutine, _create.
  cbn [new_group group_add_event_listener].
  match goal with
  | |- context [create_loop ?g ?ids ?x] =>
      exists x; rewrite (create_loop_runs g srv ids x) by (simpl; exact Hsrv)
  end.
  split; [simpl; exact Hsrv|]. split; [reflexivity|]. split; [reflexivity|].
  split.
  - intros g'. simpl. destruct (Nat.eq_dec g' (next_gref (dom a))) as [->|Hn].
    + now rewrite !upd_same.
    + now rewrite !upd_other by assumption.
  - unfold create_on_complete. reflexivity.
Qed.

(** X13.  With a server, for a non-empty list of distinct ids and a new group
    id not shown yet: the new group is shown with exactly those requested ids
    that belong to connected clients, in the order requested, and is not shown
    at all when none does.  Either way one "success" entry is logged, and the
    number in it is the number of ids requested, not of clients added. *)
Theorem create_group_shows_connected_only (env : Env) (a : App)
    (srv : SendspinServer) (client_ids : list string) (group_name : string)
    (Hsrv : _server a = Some srv)
    (Hne : client_ids <> [])
    (Hnd : NoDup client_ids)
    (Hunused : new_id_unused env (dom a) srv)
    (Halloc : groups_allocated (dom a) srv) :
  member_ids (new_group_id env (next_gref (dom a)))
    (_create_group env client_ids group_name a)
  = match filter (is_connected (dom a) srv) client_ids with
    | [] => None
    | cid :: rest => Some (cid :: rest)
    end
  /\ event_log (_create_group env client_ids group_name a)
     = event_log a
       ++ [("[" +++ PyStr.drop_last3
                      (strftime_now env (List.length (event_log a)))
            +++ "] " +++ "Created group '" +++ group_name +++ "' with "
            +++ PyStr.str_of_len (List.length client_ids) +++ " clients",
            "success")].
Proof.
  destruct (create_group_unfold_msg env a srv client_ids group_name Hsrv Hne)
    as [a1 [Hs1 [Hl1 [Hc1 [Hg1 Hrun]]]]].
  rewrite Hrun. clear Hrun.
  set (g := next_gref (dom a)) in *. set (gid := new_group_id env g) in *.
  set (members := resolved (dom a) srv client_ids).
  set (D := add_each g (resolved (dom a1) srv client_ids) (dom a1)) in *.
  set (msg := "Created group '" +++ group_name +++ "' with "
              +++ PyStr.str_of_len (List.length client_ids) +++ " clients").
  assert (G : Grouped srv g gid members D)
    by (eapply created_Grouped_any; eassumption).
  destruct (logged_refreshed env msg "success" (set_dom D a1)) as [Hs2 Hsame2].
  destruct (refresh_clients_frame (_log_event env msg "success" (set_dom D a1)))
    as [_ [_ [_ Hlog2]]].
  set (a2 := _refresh_clients (_log_event env msg "success" (set_dom D a1))) in *.
  simpl in Hs2, Hsame2. rewrite Hs1 in Hs2.
  assert (G2 : Grouped srv g gid members (dom a2))
    by (eapply Grouped_same_graph; eassumption).
  split.
  - rewrite (Grouped_member_ids srv g gid members a2 Hs2 G2).
    assert (Hids : map (fun c => client_id (cheap (dom a2) c)) members
                   = filter (is_connected (dom a) srv) client_ids).
    { unfold members. rewrite <- resolved_ids_any. apply map_ext. intros c.
      destruct Hsame2 as [_ [_ Hcl]]. destruct (Hcl c) as [Hid _].
      rewrite Hid. unfold D. rewrite add_each_client_id. now rewrite Hc1. }
    destruct members as [|c0 ms].
    + simpl in Hids. now rewrite <- Hids.
    + rewrite <- Hids. reflexivity.
  - destruct (refresh_groups_frame a2) as [_ [_ [_ [_ Hlog3]]]].
    rewrite Hlog3, Hlog2. simpl. now rewrite Hl1.
Qed.

Lemma create_group_shows_connected_only_witness :
  member_ids "group-0"
    (_create_group Session.env0 ["zz"; "c2"; "c1"] "Hall" Session.running)
  = Some ["c2"; "c1"]
  /\ event_log
       (_create_group Session.env0 ["zz"; "c2"; "c1"] "Hall" Session.running)
     = [("[12:00:00.000] Created group 'Hall' with 3 clients", "success")].
Proof.
  assert (Hne : ["zz"; "c2"; "c1"] <> []) by discriminate.
  assert (Hnd : NoDup ["zz"; "c2"; "c1"]).
  { constructor; [|constructor; [|constructor; [|constructor]]]; simpl;
      intuition discriminate. }
  assert (Hunused : new_id_unused Session.env0 (dom Session.running) Session.srv0)
    by constructor.
  assert (Halloc : groups_allocated (dom Session.running) Session.srv0)
    by constructor.
  exact (create_group_shows_connected_only Session.env0 Session.running
           Session.srv0 ["zz"; "c2"; "c1"] "Hall" eq_refl Hne Hnd Hunused Halloc).
Defined.

End CreateGroupFacts.

(** ** Refreshing again, and pressing "Stream File" *)

Module RepeatFacts.
Import Collaborator Widgets SendspinGUIApp Obs Actions Machine
       RefreshClientsFacts.

Lemma refresh_clients_panel (a : App) :
  clients_panel (_refresh_clients a)
  = map (client_data (dom a)) (scanned_clients a).
Proof.
  unfold _refresh_clients, scanned_clients.
  destruct (_server a) as [srv|]; [|reflexivity].
  pose proof (refresh_loop_data (server_clients srv) a []) as H.
  destruct (refresh_clients_loop (server_clients srv) a []) as [a1 data].
  simpl in *. exact H.
Qed.

Lemma refresh_loop_tokens (cs : list cref) :
  forall a acc,
    List.length (_event_unsubscribers (fst (refresh_clients_loop cs a acc)))
    = List.length (_event_unsubscribers a) + List.length cs.
Proof.
  induction cs as [|c cs IH]; intros a acc; simpl; [lia|].
  rewrite IH. simpl. rewrite length_app. simpl. lia.
Qed.

(** X14.  A repeated [_refresh_clients] shows the same client snapshot as the
    first, but it is not idle: every call takes one more unsubscribe callable
    for each client it scans. *)
Theorem refresh_clients_again (a : App) :
  clients_panel (_refresh_clients (_refresh_clients a))
  = clients_panel (_refresh_clients a)
  /\ List.length (_event_unsubscribers (_refresh_clients a))
     = List.length (_event_unsubscribers a) + List.length (scanned_clients a).
Proof.
  split.
  - rewrite !refresh_clients_panel.
    destruct (refresh_clients_frame a) as [Hs [Hsame _]].
    unfold scanned_clients. rewrite Hs. apply map_ext. intros c.
    now apply client_data_same_graph.
  - unfold _refresh_clients, scanned_clients.
    destruct (_server a) as [srv|]; [|simpl; lia].
    pose proof (refresh_loop_tokens (server_clients srv) a []) as H.
    destruct (refresh_clients_loop (server_clients srv) a []) as [a1 data].
    exact H.
Qed.

(** X15.  Pressing "Stream File" with a blank path, or with a path that does
    not exist, leaves the controller as it was, without a word in the event
    log; otherwise exactly one "info" entry is appended, naming the trimmed
    path and the group the stream goes to. *)
Theorem press_stream_file_logs (env : Env) (w : StreamPanel.Entries) (a : App) :
  (PyStr.strip (StreamPanel.file_entry w) = ""
   \/ path_exists env (PyStr.strip (StreamPanel.file_entry w)) = false ->
   press_stream_file env w a = a)
  /\ (PyStr.strip (StreamPanel.file_entry w) <> "" ->
      path_exists env (PyStr.strip (StreamPanel.file_entry w)) = true ->
      event_log (press_stream_file env w a)
      = event_log a
        ++ [("[" +++ PyStr.drop_last3
                       (strftime_now env (List.length (event_log a)))
             +++ "] " +++ "Streaming "
             +++ PyStr.strip (StreamPanel.file_entry w) +++ " to group "
             +++ PyStr.or_else
                   (PyStr.strip (StreamPanel.file_group_entry w)) "all",
             "info")]).
Proof.
  unfold press_stream_file, StreamPanel._stream_file.
  destruct (PyStrFacts.truthy_nonempty (PyStr.strip (StreamPanel.file_entry w)))
    as [Ht1 Ht2].
  destruct (PyStr.truthy (PyStr.strip (StreamPanel.file_entry w))) eqn:Ht; simpl.
  - specialize (Ht1 eq_refl). split.
    + intros [He|Hp]; [contradiction|]. now rewrite Hp.
    + intros _ Hp. rewrite Hp. reflexivity.
  - split; [reflexivity|]. intros Hne. specialize (Ht2 Hne). discriminate.
Qed.

End RepeatFacts.
